(** * station.py: the download / sanitize pipeline, embedded and verified

    The development follows [src/station.py]:
    - Python [str] values are lists of Unicode code points, [bytes] values
      are lists of [byte];
    - the tables and codecs of the Python runtime that the program calls
      ([str.isprintable], [str.isspace], decimal digits, the UTF-8 codec,
      [float]) are the fields of the class [PyLib];
    - the regular expressions of the program are values of a small pattern
      language with a backtracking matcher that follows the priorities of
      Python's [re] (leftmost match, greedy and lazy repetition);
    - the children processes (yt-dlp, ffprobe, ffmpeg), the wall clock and
      the file system are explicit inputs of the functions that use them;
    - floating point numbers are idealised as rationals. *)

From Stdlib Require Import QArith Qround Lqa.
From Stdlib Require Import Ascii String DecimalString DecimalNat Strings.Byte.
From stdpp Require Import gmap list strings.

Set Default Proof Using "Type".
Local Open Scope N_scope.

(** ** Text and bytes *)

Definition char := N.
Abbreviation text := (list N).
Abbreviation bytes := (list Byte.byte).

(** The file system: the paths that exist, with the size of the file. *)
Abbreviation fsys := (gmap (list N) N).

(** A Rocq string literal (ASCII only) as a Python [str]. *)
Definition str (s : string) : text := N_of_ascii <$> list_ascii_of_string s.

(** The same literal as a Python [bytes] value. *)
Definition bstr (s : string) : bytes := list_byte_of_string s.

Definition LF : char := 10.
Definition CR : char := 13.
Definition DQUOTE : char := 34.

(** ** The part of the Python runtime the program relies on *)

Class PyLib := {
  (** [c.isprintable()] *)
  isprintable : char → bool;
  (** [c.isspace()], also the class [\s] of [re] on [str] patterns *)
  isspace : char → bool;
  (** the decimal value of a digit; [\d] matches exactly the characters
      that have one, and [int] reads them *)
  todecimal : char → option N;
  (** [b.decode('utf-8', errors='replace')] *)
  decode_replace : bytes → text;
  (** [b.decode('utf-8', errors='ignore')] *)
  decode_ignore : bytes → text;
  (** [b.decode()]: [None] when it raises [UnicodeDecodeError] *)
  decode_strict : bytes → option text;
  (** [float(s)]: [None] when it raises [ValueError] *)
  float_of_str : text → option Q;
  (** what the tables are on ASCII *)
  isprintable_ascii c :
    c < 128 → isprintable c = (32 <=? c) && (c <=? 126);
  isspace_ascii c :
    c < 128 →
    isspace c = ((9 <=? c) && (c <=? 13)) || ((28 <=? c) && (c <=? 32));
  todecimal_ascii c :
    c < 128 →
    todecimal c = if (48 <=? c) && (c <=? 57) then Some (c - 48) else None;
}.

(** ** Regular expressions *)

Inductive quant := One | Opt | Star | Plus | LazyStar.

(** An item is a character class with a quantifier, a group parenthesis
    or the anchor [$]. Every pattern of the program is a sequence of
    items. *)
Inductive item :=
| Cls (p : char → bool) (q : quant)
| GOpen
| GClose
| Eos.

Abbreviation regex := (list item).

Definition is_char (c : char) : char → bool := λ x, N.eqb x c.
Definition any_char : char → bool := λ x, negb (N.eqb x LF).
Definition lit (s : string) : regex := (λ c, Cls (is_char c) One) <$> str s.

(** [$] matches at the end of the string and before a final newline. *)
Definition at_end (s : text) : bool :=
  match s with
  | [] => true
  | [c] => N.eqb c LF
  | _ => false
  end.

(** The result of a successful match is the list of the segments of the
    subject consumed by each item, in order. *)
Definition seg_cons (x : text) (o : option (list text)) : option (list text) :=
  cons x <$> o.

Definition ext_first (c : char) (o : option (list text)) : option (list text) :=
  match o with
  | Some (seg :: g) => Some ((c :: seg) :: g)
  | _ => None
  end.

(** [p*] followed by [k], longest repetition first. *)
Fixpoint greedy (p : char → bool) (k : text → option (list text)) (s : text)
  : option (list text) :=
  match s with
  | c :: s' =>
      if p c then
        match ext_first c (greedy p k s') with
        | Some g => Some g
        | None => seg_cons [] (k s)
        end
      else seg_cons [] (k s)
  | [] => seg_cons [] (k [])
  end.

(** [p*?] followed by [k], shortest repetition first. *)
Fixpoint lazy (p : char → bool) (k : text → option (list text)) (s : text)
  : option (list text) :=
  match seg_cons [] (k s) with
  | Some g => Some g
  | None =>
      match s with
      | c :: s' => if p c then ext_first c (lazy p k s') else None
      | [] => None
      end
  end.

(** [rmatch r s]: match [r] at the beginning of [s]. *)
Fixpoint rmatch (r : regex) (s : text) {struct r} : option (list text) :=
  match r with
  | [] => Some []
  | GOpen :: r' | GClose :: r' => seg_cons [] (rmatch r' s)
  | Eos :: r' => if at_end s then seg_cons [] (rmatch r' s) else None
  | Cls p One :: r' =>
      match s with
      | c :: s' => if p c then seg_cons [c] (rmatch r' s') else None
      | [] => None
      end
  | Cls p Opt :: r' =>
      match s with
      | c :: s' =>
          if p c then
            match seg_cons [c] (rmatch r' s') with
            | Some g => Some g
            | None => seg_cons [] (rmatch r' s)
            end
          else seg_cons [] (rmatch r' s)
      | [] => seg_cons [] (rmatch r' s)
      end
  | Cls p Star :: r' => greedy p (rmatch r') s
  | Cls p Plus :: r' =>
      match s with
      | c :: s' => if p c then ext_first c (greedy p (rmatch r') s') else None
      | [] => None
      end
  | Cls p LazyStar :: r' => lazy p (rmatch r') s
  end.

(** The text of the groups of a match, from the segments: the segments
    between a [GOpen] and the next [GClose] are concatenated. Groups do
    not nest in the patterns of the program. *)
Fixpoint groups_from (r : regex) (segs : list text) (cur : option text)
  : list text :=
  match r, segs with
  | it :: r', seg :: segs' =>
      match it, cur with
      | GOpen, _ => groups_from r' segs' (Some [])
      | GClose, Some g => g :: groups_from r' segs' None
      | _, Some g => groups_from r' segs' (Some (g ++ seg))
      | _, None => groups_from r' segs' None
      end
  | _, _ => []
  end.

(** A match object: the text before the match, the matched text, the
    groups and the text after the match. *)
Record rmatch_obj := {
  m_before : text;
  m_whole : text;
  m_groups : list text;
  m_after : text;
}.

Definition match_at (r : regex) (before s : text) : option rmatch_obj :=
  segs ← rmatch r s;
  let whole := concat segs in
  Some {| m_before := before; m_whole := whole;
          m_groups := groups_from r segs None;
          m_after := drop (length whole) s |}.

(** [re.search]: the first position, from the left, where the pattern
    matches. [rev_before] is the text already skipped, reversed. *)
Fixpoint search_from (r : regex) (rev_before : text) (s : text)
  : option rmatch_obj :=
  match match_at r (rev rev_before) s with
  | Some m => Some m
  | None =>
      match s with
      | c :: s' => search_from r (c :: rev_before) s'
      | [] => None
      end
  end.

Definition re_search (r : regex) (s : text) : option rmatch_obj :=
  search_from r [] s.

(** [m.group(i)] for [i >= 1]. *)
Definition group (i : nat) (m : rmatch_obj) : text :=
  default [] (m_groups m !! pred i).

(** [re.sub(r, repl, s)] for a pattern that matches no empty text:
    every match, from the left, is replaced by [repl]. [skip] counts the
    characters of the current match still to be dropped. *)
Fixpoint sub_from (r : regex) (repl : text) (skip : nat) (s : text) : text :=
  match s with
  | [] => []
  | c :: s' =>
      match skip with
      | S n => sub_from r repl n s'
      | O =>
          match rmatch r s with
          | Some segs =>
              match length (concat segs) with
              | S n => repl ++ sub_from r repl n s'
              | O => c :: sub_from r repl O s'
              end
          | None => c :: sub_from r repl O s'
          end
      end
  end.

Definition re_sub (r : regex) (repl : text) (s : text) : text :=
  sub_from r repl O s.

(** [needle in s] *)
Fixpoint contains (needle s : text) : bool :=
  if bool_decide (needle `prefix_of` s) then true
  else match s with
       | [] => false
       | _ :: s' => contains needle s'
       end.

Definition chr (a : ascii) : char := N_of_ascii a.

(** ** Strings, integers and decimals *)

Section Station.
Context `{PyLib}.

(** The classes [\d], [\s] and [\S]. *)
Definition is_digit (c : char) : bool :=
  match todecimal c with Some _ => true | None => false end.
Definition is_space (c : char) : bool := isspace c.
Definition non_space (c : char) : bool := negb (isspace c).

(** [s.lstrip()], [s.rstrip()] and [s.strip()]. *)
Fixpoint lstrip (s : text) : text :=
  match s with
  | c :: s' => if isspace c then lstrip s' else s
  | [] => []
  end.
Definition rstrip (s : text) : text := rev (lstrip (rev s)).
Definition strip (s : text) : text := rstrip (lstrip s).

(** [int(s)] for a string of decimal digits. *)
Definition int_of_digits (s : text) : N :=
  foldl (λ acc c, 10 * acc + default 0 (todecimal c)) 0 s.

(** [s.split(sep)[0]]: the text before the first [sep]. *)
Fixpoint before_sep (sep : char) (s : text) : text :=
  match s with
  | c :: s' => if N.eqb c sep then [] else c :: before_sep sep s'
  | [] => []
  end.

(** [s.split(sep)]. *)
Fixpoint split_on (sep : char) (cur : text) (s : text) : list text :=
  match s with
  | c :: s' =>
      if N.eqb c sep then rev cur :: split_on sep [] s'
      else split_on sep (c :: cur) s'
  | [] => [rev cur]
  end.
Definition split (sep : char) (s : text) : list text := split_on sep [] s.

(** [float(s)] for a string matched by [\d+\.?\d*]: the decimal it
    denotes. *)
Definition float_of_decimal (s : text) : Q :=
  let ip := before_sep (chr ".") s in
  let fp := drop (S (length ip)) s in
  (Z.of_N (int_of_digits (ip ++ fp)) # Pos.of_nat (10 ^ length fp))%Q.

(** [str(n)] for a natural number. *)
Definition str_of_nat (n : nat) : text :=
  str (NilEmpty.string_of_uint (Nat.to_uint n)).

(** [f"{n:02d}"] for [n >= 0]. *)
Definition fmt_02d (n : Z) : text :=
  let d := str_of_nat (Z.to_nat n) in
  if (length d <? 2)%nat then chr "0" :: d else d.

(** ** Paths *)

(** A path is the text it was built from. [Path(s).name] is the last
    component of [s] that is neither empty nor a single dot (pathlib on
    POSIX). *)
Definition is_part (p : text) : bool :=
  negb (bool_decide (p = []) || bool_decide (p = [chr "."])).

Definition path_name (p : text) : text :=
  default [] (last (filter (λ x, is_part x = true) (split (chr "/") p))).

(** [s.rfind(c)], [-1] when [c] does not occur. *)
Fixpoint rfind_from (c : char) (i : Z) (best : Z) (s : text) : Z :=
  match s with
  | x :: s' => rfind_from c (i + 1) (if N.eqb x c then i else best) s'
  | [] => best
  end.
Definition rfind (c : char) (s : text) : Z := rfind_from c 0 (-1) s.

(** [Path(s).stem]: the name without its last suffix; a name that begins
    or ends with its only dot has no suffix. *)
Definition path_stem (p : text) : text :=
  let name := path_name p in
  let i := rfind (chr ".") name in
  if ((0 <? i) && (i <? Z.of_nat (length name) - 1))%Z
  then take (Z.to_nat i) name
  else name.

(** [dir / name] for a relative [name]. *)
Definition path_join (dir name : text) : text := dir ++ chr "/" :: name.

Definition DOWNLOAD_DIR : text := str "/app/downloads".
Definition SAFE_DIR : text := str "/app/safe_output".
Definition MAX_CONCURRENT_TASKS : nat := 3.

(** ** Progress events *)

Inductive kind := k_title | k_download | k_download_done | k_sanitize.

(** One call [progress_callback(p, s, d)]. *)
Record event := Event {
  ev_percent : option Q;
  ev_kind : kind;
  ev_detail : text;
}.

(** ** Downloader.download *)

Definition stats_pattern : regex :=
  lit "[download]" ++
  [Cls is_space Plus; GOpen; Cls is_digit Plus; Cls (is_char (chr ".")) Opt;
   Cls is_digit Star; GClose] ++
  lit "%" ++ [Cls any_char Star] ++ lit "at" ++
  [Cls is_space Plus; GOpen; Cls non_space Plus; GClose; Cls is_space Plus] ++
  lit "ETA" ++ [Cls is_space Plus; GOpen; Cls non_space Plus; GClose].

Definition f_pattern : regex :=
  lit "[download] Destination: " ++ [GOpen; Cls any_char Plus; GClose].

Definition f_merge : regex :=
  lit "[Merger] Merging formats into " ++
  [Cls (is_char DQUOTE) One; GOpen; Cls any_char Plus; GClose;
   Cls (is_char DQUOTE) One].

Definition f_exist : regex :=
  lit "[download] " ++ [GOpen; Cls any_char Plus; GClose] ++
  lit " has already been downloaded".

(** [\.f\d+$] *)
Definition fid_pattern : regex :=
  lit ".f" ++ [Cls is_digit Plus; Eos].

(** [\s*\[.*?\]$] *)
Definition bracket_pattern : regex :=
  [Cls is_space Star; Cls (is_char (chr "[")) One; Cls any_char LazyStar;
   Cls (is_char (chr "]")) One; Eos].

(** The pattern of line 112: a group of digits, an optional dot and
    digits, then a percent sign. *)
Definition percent_pattern : regex :=
  [GOpen; Cls is_digit Plus; Cls (is_char (chr ".")) Opt; Cls is_digit Star;
   GClose] ++ lit "%".

(** Lines 90-93: the three announcements, each overwriting the former. *)
Definition detected_name (t : text) : option text :=
  let d := None in
  let d := match re_search f_pattern t with
           | Some m => Some (group 1 m) | None => d end in
  let d := match re_search f_merge t with
           | Some m => Some (group 1 m) | None => d end in
  let d := match re_search f_exist t with
           | Some m => Some (group 1 m) | None => d end in
  d.

(** The truth value of a [str] or [None]. *)
Definition truthy (o : option text) : bool :=
  match o with
  | Some (_ :: _) => true
  | _ => false
  end.

(** Lines 98-100. *)
Definition clean_title (detected : text) : text :=
  let name_clean := path_stem detected in
  let name_clean :=
    match re_search fid_pattern name_clean with
    | Some _ => path_stem name_clean
    | None => name_clean
    end in
  re_sub bracket_pattern [] name_clean.

Definition WAIT_DETAIL : text := 128164 :: str " Wait...".
Definition MERGING_DETAIL : text := 129513 :: str " Merging...".

(** Lines 104-113: the progress events of one line. *)
Definition progress_events (t : text) : list event :=
  (if contains (str "Sleeping") t
   then [Event None k_download WAIT_DETAIL] else []) ++
  (if contains (str "[Merger]") t
   then [Event None k_download MERGING_DETAIL] else []) ++
  match re_search stats_pattern t with
  | Some m =>
      [Event (Some (float_of_decimal (group 1 m))) k_download
             (group 2 m ++ str " | ETA " ++ group 3 m)]
  | None =>
      if contains (str "[download]") t && contains (str "%") t then
        match re_search percent_pattern t with
        | Some pm => [Event (Some (float_of_decimal (group 1 pm))) k_download []]
        | None => []
        end
      else []
  end.

(** Lines 88-113: one iteration of the loop on the decoded line. It
    returns the new value of [final_filename] and the events. *)
Definition download_line (final_filename : option text) (t : text)
  : option text * list event :=
  let d := detected_name t in
  if truthy d then
    (d, Event None k_title (clean_title (default [] d)) :: progress_events t)
  else (final_filename, progress_events t).

(** The values of the successive [process.stdout.readline()] calls, up
    to the empty one at the end of the stream: lines end with their
    newline, the last one may lack it. [cur] is the line being read,
    reversed. A line longer than the limit of the stream reader, for
    which [readline] raises, is left out of the model. *)
Fixpoint read_lines (cur : bytes) (stream : bytes) : list bytes :=
  match stream with
  | [] => match cur with [] => [] | _ => [rev cur] end
  | b :: rest =>
      if Byte.eqb b "010"%byte then rev (b :: cur) :: read_lines [] rest
      else read_lines (b :: cur) rest
  end.

(** Lines 85-113: the loop over the lines. *)
Definition download_loop (lines : list bytes) : option text * list event :=
  foldl (λ '(ff, evs) line,
           let '(ff', e) := download_line ff (strip (decode_replace line)) in
           (ff', evs ++ e))
        (None, []) lines.

(** One run of a child process: what it writes on the pipe the program
    reads, and its exit code. *)
Record proc_run := {
  p_output : bytes;
  p_returncode : Z;
}.

(** Lines 72-116. The result is the path or [None], with the events. *)
Definition download (yt : proc_run) : option text * list event :=
  let '(final_filename, evs) := download_loop (read_lines [] (p_output yt)) in
  (if (p_returncode yt =? 0)%Z && truthy final_filename
   then final_filename else None, evs).

(** ** Downloader.get_duration *)

(** One run of ffprobe: launching it or reading its output raised, or it
    wrote [out] on its standard output. *)
Inductive probe_run :=
| ProbeRaised
| ProbeOutput (out : bytes).

(** Lines 181-187: any exception gives [None]. *)
Definition get_duration (pr : probe_run) : option Q :=
  match pr with
  | ProbeRaised => None
  | ProbeOutput out => t ← decode_strict out; float_of_str (strip t)
  end.

(** ** Downloader.sanitize *)

Definition path_exists (fs : fsys) (p : text) : bool :=
  bool_decide (is_Some (fs !! p)).

Definition UNSAFE : text := str "<>:" ++ DQUOTE :: str "/\|?*".
Definition is_unsafe (c : char) : bool := bool_decide (c ∈ UNSAFE).

(** Lines 121-123. *)
Definition safe_stem_of (stem : text) : text :=
  let safe_stem := re_sub [Cls is_unsafe One] (str "_") stem in
  filter (λ c, isprintable c = true) safe_stem.

(** Line 131: the candidate with suffix [counter]. *)
Definition numbered (safe_stem : text) (counter : nat) : text :=
  path_join SAFE_DIR
    (safe_stem ++ str "_clean_" ++ str_of_nat counter ++ str ".mp4").

(** Lines 130-132: the loop, for at most [fuel] iterations. *)
Fixpoint collision_loop (fuel : nat) (fs : fsys) (safe_stem : text)
    (output_path : text) (counter : nat) : option text :=
  match fuel with
  | O => None
  | S fuel' =>
      if path_exists fs output_path
      then collision_loop fuel' fs safe_stem (numbered safe_stem counter)
             (S counter)
      else Some output_path
  end.

(** Lines 121-132: the output path for the stem of the input path. The
    loop leaves within [size fs + 1] iterations ([output_path_total]). *)
Definition output_path_for (fs : fsys) (stem : text) : option text :=
  let safe_stem := safe_stem_of stem in
  let safe_name := safe_stem ++ str "_clean.mp4" in
  collision_loop (S (size fs)) fs safe_stem (path_join SAFE_DIR safe_name) 1.

Definition time_pattern : regex :=
  lit "time=" ++
  [GOpen; Cls is_digit Plus; Cls (is_char (chr ":")) One;
   Cls is_digit Plus; Cls (is_char (chr ":")) One;
   Cls is_digit Plus; Cls (is_char (chr ".")) One;
   Cls is_digit Plus; GClose].

Definition speed_pattern : regex :=
  lit "speed=" ++ [Cls is_space Star; GOpen; Cls non_space Plus; GClose].

(** The truth value of [duration]: a number other than zero. *)
Definition known_duration (duration : option Q) : option Q :=
  match duration with
  | Some d => if Qeq_bool d 0 then None else Some d
  | None => None
  end.

(** [x < y] on numbers. *)
Definition Qlt_bool (x y : Q) : bool := negb (Qle_bool y x).

(** [min(x, y)]: [y] when it is the smaller, [x] otherwise. *)
Definition min2 (x y : Q) : Q := if Qlt_bool y x then y else x.

(** [int(x)] for a number: rounding towards zero. *)
Definition int_of_float (x : Q) : Z := (Qnum x ÷ Z.pos (Qden x))%Z.

(** Lines 167-174, [elapsed] being the seconds since [start_time]. *)
Definition eta_str_of (elapsed pct : Q) : text :=
  if Qlt_bool 0 elapsed && Qlt_bool 0 pct then
    let total_estimated := (elapsed * (100 / pct))%Q in
    let remaining := (total_estimated - elapsed)%Q in
    let r := int_of_float remaining in
    fmt_02d (r `div` 60)%Z ++ chr ":" :: fmt_02d (r `mod` 60)%Z
  else str "--:--".

(** Lines 156-176: the events of one line, decoded and stripped. *)
Definition sanitize_line (duration : option Q) (elapsed : Q) (t : text)
  : list event :=
  match re_search time_pattern t, known_duration duration with
  | Some t_match, Some d =>
      let cur_time_str := before_sep (chr ".") (group 1 t_match) in
      let speed_str :=
        match re_search speed_pattern t with
        | Some sp_match => group 1 sp_match
        | None => str "?x"
        end in
      match split (chr ":") cur_time_str with
      | [h; m; s] =>
          let curr :=
            int_of_digits h * 3600 + int_of_digits m * 60 + int_of_digits s in
          let pct := min2 ((Z.of_N curr # 1) / d * 100) (999 # 10) in
          [Event (Some pct) k_sanitize
                 (cur_time_str ++ str " | " ++ speed_str ++ str " | ETA " ++
                  eta_str_of elapsed pct)]
      | _ => []
      end
  | _, _ => []
  end.

(** [buffer.find(c)] *)
Fixpoint find (c : Byte.byte) (buffer : bytes) : Z :=
  match buffer with
  | [] => -1
  | x :: rest =>
      if Byte.eqb x c then 0
      else let i := find c rest in if (i =? -1)%Z then -1 else (i + 1)%Z
  end.

(** Lines 151-153. *)
Definition next_idx (buffer : bytes) : Z :=
  let idx_r := find "013"%byte buffer in
  let idx_n := find "010"%byte buffer in
  if (idx_r =? -1)%Z then idx_n
  else if (idx_n =? -1)%Z then idx_r
  else Z.min idx_r idx_n.

(** Lines 150-155: the inner loop, for at most [fuel] iterations; it
    returns the lines taken from the buffer and what is left of it. With
    more fuel than the buffer has bytes the loop leaves because no
    delimiter is left ([drain_complete]). *)
Fixpoint drain (fuel : nat) (buffer : bytes) : list bytes * bytes :=
  match fuel with
  | O => ([], buffer)
  | S fuel' =>
      let idx := next_idx buffer in
      if (idx =? -1)%Z then ([], buffer)
      else
        let line := take (Z.to_nat idx) buffer in
        let '(ls, b) := drain fuel' (drop (Z.to_nat idx + 1) buffer) in
        (line :: ls, b)
  end.

(** Lines 145-155: the lines of the chunks that the successive
    [process.stderr.read(128)] return; the loop ends at the first empty
    chunk, or when there is none left. *)
Fixpoint sanitize_lines (chunks : list bytes) (buffer : bytes) : list bytes :=
  match chunks with
  | [] => []
  | [] :: _ => []
  | chunk :: rest =>
      let buffer := buffer ++ chunk in
      let '(ls, b) := drain (S (length buffer)) buffer in
      ls ++ sanitize_lines rest b
  end.

(** One run of ffmpeg: the chunks read from its standard error, its exit
    code, the size of the file it leaves at the output path if it leaves
    one, and the clock: [ff_elapsed i] is the time since [start_time],
    in seconds, when line [i] is handled. *)
Record ffmpeg_run := {
  ff_chunks : list bytes;
  ff_returncode : Z;
  ff_written : option N;
  ff_elapsed : nat → Q;
}.

Definition sanitize_events (duration : option Q) (ff : ffmpeg_run)
  : list event :=
  concat (imap (λ i line,
                  sanitize_line duration (ff_elapsed ff i)
                    (strip (decode_ignore line)))
               (sanitize_lines (ff_chunks ff) [])).

(** What ffmpeg does to the file system. *)
Definition ffmpeg_effect (ff : ffmpeg_run) (output_path : text) (fs : fsys)
  : fsys :=
  match ff_written ff with
  | Some n => <[output_path := n]> fs
  | None => fs
  end.

(** Lines 118-179. [None] stands for a loop at line 130 that does not
    end, which never is the case ([output_path_total]). *)
Definition sanitize (input_path : text) (pr : probe_run) (ff : ffmpeg_run)
    (fs : fsys) : option (option text * list event * fsys) :=
  output_path ← output_path_for fs (path_stem input_path);
  let duration := get_duration pr in
  Some (if (ff_returncode ff =? 0)%Z then Some output_path else None,
        sanitize_events duration ff,
        ffmpeg_effect ff output_path fs).

End Station.

(** ** Downloader.run_pipeline *)

Section Pipeline.
Context `{PyLib}.

(** The calls of [self.log], with the values they print. *)
Inductive log_entry :=
| LogStartExtraction (url : text)
| LogExtractionFailed (url : text)
| LogDLDone (name : text)
| LogStartSanitization (name : text)
| LogDiet (raw_size clean_size : N) (diff : Z) (percent : Q)
| LogGain (raw_size clean_size : N) (diff : Z) (percent : Q)
| LogComplete (name : text)
| LogSanitizationDied (name : text).

(** What one job meets: the run of yt-dlp and the files it leaves, the
    run of ffprobe, the run of ffmpeg, and the paths [os.remove] is
    refused on. *)
Record job_run := {
  j_ytdlp : proc_run;
  j_downloaded : fsys;
  j_probe : probe_run;
  j_ffmpeg : ffmpeg_run;
  j_locked : gset text;
}.

(** [os.remove(p)]: [None] when it raises. *)
Definition os_remove (locked : gset text) (p : text) (fs : fsys)
  : option fsys :=
  if path_exists fs p && negb (bool_decide (p ∈ locked))
  then Some (delete p fs) else None.

(** Lines 46-62: the statistics; nothing is logged when a [stat]
    raises. *)
Definition stats_log (fs : fsys) (raw_file clean_file : text)
  : list log_entry :=
  match fs !! raw_file, fs !! clean_file with
  | Some raw_size, Some clean_size =>
      let diff := (Z.of_N raw_size - Z.of_N clean_size)%Z in
      let percent :=
        if (0 <? raw_size)
        then ((Z.abs diff # 1) / (Z.of_N raw_size # 1) * 100)%Q else 0%Q in
      if (0 <? diff)%Z then [LogDiet raw_size clean_size diff percent]
      else [LogGain raw_size clean_size (Z.abs diff) percent]
  | _, _ => []
  end.

Record outcome := {
  o_result : option text;
  o_events : list event;
  o_log : list log_entry;
  o_fs : fsys;
}.

(** Lines 31-70, the body under [async with task_semaphore]. *)
Definition run_pipeline (url : text) (j : job_run) (fs : fsys)
  : option outcome :=
  let fs := j_downloaded j ∪ fs in
  let '(raw_file, evs) := download (j_ytdlp j) in
  match raw_file with
  | None =>
      Some {| o_result := None; o_events := evs;
              o_log := [LogStartExtraction url; LogExtractionFailed url];
              o_fs := fs |}
  | Some raw_file =>
      let log := [LogStartExtraction url; LogDLDone (path_name raw_file)] in
      let evs := evs ++ [Event (Some 0%Q) k_download_done (str "Prep...")] in
      let log := log ++ [LogStartSanitization (path_name raw_file)] in
      '(clean_file, sevs, fs) ← sanitize raw_file (j_probe j) (j_ffmpeg j) fs;
      match clean_file with
      | Some clean_file =>
          let log := log ++ stats_log fs raw_file clean_file in
          let log := log ++ [LogComplete (path_name clean_file)] in
          let fs := default fs (os_remove (j_locked j) raw_file fs) in
          Some {| o_result := Some clean_file; o_events := evs ++ sevs;
                  o_log := log; o_fs := fs |}
      | None =>
          Some {| o_result := None; o_events := evs ++ sevs;
                  o_log := log ++ [LogSanitizationDied (path_name raw_file)];
                  o_fs := fs |}
      end
  end.

End Pipeline.

(** ** A runtime for ASCII data

    The tables below are those of CPython on ASCII, and [isspace] on all
    of Unicode. Outside ASCII the other fields are approximations: no
    digit, every code point from U+00A1 on printable unless it is a space
    or U+00AD, and a byte above 127 is an invalid one for the codec. The
    examples on concrete data use ASCII data only. *)

Definition ascii_isspace (c : char) : bool :=
  ((9 <=? c) && (c <=? 13)) || ((28 <=? c) && (c <=? 32)) ||
  bool_decide (c ∈ [133; 160; 5760; 8232; 8233; 8239; 8287; 12288]) ||
  ((8192 <=? c) && (c <=? 8202)).

Definition ascii_isprintable (c : char) : bool :=
  ((32 <=? c) && (c <=? 126)) ||
  ((161 <=? c) && negb (c =? 173) && negb (ascii_isspace c)).

Definition ascii_todecimal (c : char) : option N :=
  if (48 <=? c) && (c <=? 57) then Some (c - 48) else None.

Definition ascii_decode (bad : text) (b : bytes) : text :=
  b ≫= λ x, let c := Byte.to_N x in if c <? 128 then [c] else bad.

Definition ascii_decode_strict (b : bytes) : option text :=
  if forallb (λ x, Byte.to_N x <? 128) b
  then Some (Byte.to_N <$> b) else None.

Definition ascii_digits (s : text) : bool :=
  forallb (λ c, (48 <=? c) && (c <=? 57)) s.

Definition ascii_int (s : text) : N :=
  foldl (λ acc c, 10 * acc + (c - 48)) 0 s.

(** A decimal, digits with at most one dot. *)
Definition ascii_float (s : text) : option Q :=
  match list_find (λ c, c = chr ".") s with
  | None =>
      if ascii_digits s && negb (bool_decide (s = []))
      then Some (Z.of_N (ascii_int s) # 1)%Q else None
  | Some (i, _) =>
      let ip := take i s in
      let fp := drop (S i) s in
      if ascii_digits ip && ascii_digits fp && negb (bool_decide (ip ++ fp = []))
      then Some (Z.of_N (ascii_int (ip ++ fp)) # Pos.of_nat (10 ^ length fp))%Q
      else None
  end.

Lemma ascii_isprintable_law c :
  c < 128 → ascii_isprintable c = (32 <=? c) && (c <=? 126).
Proof.
  intros Hc. unfold ascii_isprintable.
  replace (161 <=? c) with false by (symmetry; apply N.leb_gt; lia).
  by rewrite orb_false_r.
Qed.

Lemma ascii_isspace_law c :
  c < 128 →
  ascii_isspace c = ((9 <=? c) && (c <=? 13)) || ((28 <=? c) && (c <=? 32)).
Proof.
  intros Hc. unfold ascii_isspace.
  replace (8192 <=? c) with false by (symmetry; apply N.leb_gt; lia).
  rewrite bool_decide_eq_false_2.
  - by rewrite !orb_false_r.
  - rewrite !elem_of_cons, elem_of_nil. lia.
Qed.

#[export] Instance ascii_pylib : PyLib := {|
  isprintable := ascii_isprintable;
  isspace := ascii_isspace;
  todecimal := ascii_todecimal;
  decode_replace := ascii_decode [65533];
  decode_ignore := ascii_decode [];
  decode_strict := ascii_decode_strict;
  float_of_str := ascii_float;
  isprintable_ascii := ascii_isprintable_law;
  isspace_ascii := ascii_isspace_law;
  todecimal_ascii := λ c _, eq_refl;
|}.

(** ** The semaphore and the jobs

    The pipelines are coroutines of one event loop: between two [await]
    a pipeline runs alone, so a run of the program is an interleaving of
    the steps below. [Queued] is a pipeline waiting at
    [async with task_semaphore]; [Raised] one left by an exception. The
    order in which waiting pipelines are served is left open. *)

Inductive stage := Queued | Acquiring | Sanitizing | Done | Failed | Raised.
Inductive program := YtDlp | Ffprobe | Ffmpeg.
Inductive action := Acquire | Launch (p : program) | Release.

Record sched := {
  sem_value : nat;
  jobs : list stage;
}.

Definition initial : sched :=
  {| sem_value := MAX_CONCURRENT_TASKS; jobs := [] |}.

Definition holds_permit (st : stage) : bool :=
  match st with
  | Acquiring | Sanitizing => true
  | _ => false
  end.

Definition holding (js : list stage) : nat :=
  length (filter (λ st, holds_permit st = true) js).

Definition set_stage (s : sched) (v : nat) (i : nat) (st : stage) : sched :=
  {| sem_value := v; jobs := <[i := st]> (jobs s) |}.

Section Scheduler.
Context `{PyLib}.
(** The runs that job [i] meets. *)
Variable runs : nat → job_run.

Definition acquired (i : nat) : option text := (download (j_ytdlp (runs i))).1.
Definition sanitized (i : nat) : bool :=
  (ff_returncode (j_ffmpeg (runs i)) =? 0)%Z.

Inductive step : sched → list (nat * action) → sched → Prop :=
| step_submit s :
    step s [] {| sem_value := sem_value s; jobs := jobs s ++ [Queued] |}
| step_acquire s i :
    jobs s !! i = Some Queued → (0 < sem_value s)%nat →
    step s [(i, Acquire); (i, Launch YtDlp)]
      (set_stage s (sem_value s - 1) i Acquiring)
| step_download_ok s i raw_file :
    jobs s !! i = Some Acquiring → acquired i = Some raw_file →
    step s [(i, Launch Ffprobe); (i, Launch Ffmpeg)]
      (set_stage s (sem_value s) i Sanitizing)
| step_download_failed s i :
    jobs s !! i = Some Acquiring → acquired i = None →
    step s [(i, Release)] (set_stage s (sem_value s + 1) i Failed)
| step_sanitize_ok s i :
    jobs s !! i = Some Sanitizing → sanitized i = true →
    step s [(i, Release)] (set_stage s (sem_value s + 1) i Done)
| step_sanitize_failed s i :
    jobs s !! i = Some Sanitizing → sanitized i = false →
    step s [(i, Release)] (set_stage s (sem_value s + 1) i Failed)
| step_raise s i st :
    jobs s !! i = Some st → holds_permit st = true →
    step s [(i, Release)] (set_stage s (sem_value s + 1) i Raised).

(** The states a run reaches, with the actions done so far. *)
Inductive reach : list (nat * action) → sched → Prop :=
| reach_initial : reach [] initial
| reach_step tr s l s' : reach tr s → step s l s' → reach (tr ++ l) s'.

(** The actions of job [i] in a trace. *)
Definition history (i : nat) (tr : list (nat * action)) : list action :=
  snd <$> filter (λ e, e.1 = i) tr.

Definition before_download : list action := [Acquire; Launch YtDlp].
Definition before_sanitize : list action :=
  before_download ++ [Launch Ffprobe; Launch Ffmpeg].

(** What the history of a job in a given stage is. *)
Definition history_of (st : option stage) (h : list action) : Prop :=
  match st with
  | None | Some Queued => h = []
  | Some Acquiring => h = before_download
  | Some Sanitizing => h = before_sanitize
  | Some Done => h = before_sanitize ++ [Release]
  | Some Failed | Some Raised =>
      h = before_download ++ [Release] ∨ h = before_sanitize ++ [Release]
  end.

End Scheduler.

(** ** The vocabulary of the properties *)

(** What the segment of an item is. *)
Definition seg_ok (it : item) (seg : text) : Prop :=
  match it with
  | Cls p One => ∃ c, seg = [c] ∧ p c = true
  | Cls p Opt => seg = [] ∨ ∃ c, seg = [c] ∧ p c = true
  | Cls p Star | Cls p LazyStar => Forall (λ c, p c = true) seg
  | Cls p Plus => seg ≠ [] ∧ Forall (λ c, p c = true) seg
  | GOpen | GClose | Eos => seg = []
  end.

(** The segments are the beginning of the subject, and what follows
    them is at the end of the subject when the pattern ends with [$]. *)
Definition consumed (r : regex) (segs : list text) (s : text) : Prop :=
  ∃ rest, s = concat segs ++ rest ∧ (last r = Some Eos → at_end rest = true).

Definition cont_ok (r : regex) (k : text → option (list text)) : Prop :=
  ∀ s segs, k s = Some segs → Forall2 seg_ok r segs ∧ consumed r segs s.

Definition is_cls (it : item) : Prop :=
  match it with Cls _ _ => True | _ => False end.

Section Vocabulary.
Context `{PyLib}.

(** A line announces a file name when one of the three patterns is found
    in it. *)
Definition announced (t : text) : Prop :=
  is_Some (re_search f_pattern t) ∨ is_Some (re_search f_merge t) ∨
  is_Some (re_search f_exist t).

Definition texts (lines : list bytes) : list text :=
  (λ line, strip (decode_replace line)) <$> lines.

(** [p] is the name in the last line of [ts] that announces one. *)
Definition last_announced (ts : list text) (p : text) : Prop :=
  ∃ l1 t l2, ts = l1 ++ t :: l2 ∧ announced t ∧ detected_name t = Some p ∧
             Forall (λ t', ¬ announced t') l2.



Definition replace_unsafe (c : char) : char :=
  if is_unsafe c then chr "_" else c.

(** A character of a name that is safe: printable and not one of
    [UNSAFE]. *)
Definition safe_char (c : char) : Prop := (c ∉ UNSAFE) ∧ isprintable c = true.

(** The probe fails: launching ffprobe or reading its output raises,
    its output is not valid UTF-8, or it is not a number for [float]. *)
Definition probe_failed (pr : probe_run) : Prop :=
  match pr with
  | ProbeRaised => True
  | ProbeOutput out =>
      match decode_strict out with
      | None => True
      | Some t => float_of_str (strip t) = None
      end
  end.

Definition is_delim (b : Byte.byte) : bool :=
  Byte.eqb b "013"%byte || Byte.eqb b "010"%byte.

(** The first line of a buffer and what follows its delimiter. *)
Fixpoint split_first (buffer : bytes) : option (bytes * bytes) :=
  match buffer with
  | [] => None
  | x :: rest =>
      if is_delim x then Some ([], rest)
      else '(l, r) ← split_first rest; Some (x :: l, r)
  end.

(** Two buffers that differ only in which delimiter they use. *)
Definition same_byte (a b : Byte.byte) : Prop :=
  a = b ∨ (is_delim a = true ∧ is_delim b = true).






End Vocabulary.

(** ** Concrete runs *)

(** yt-dlp announces one file and succeeds, or reports an error. *)
Definition yt_ok : proc_run :=
  {| p_output := bstr "[download] Destination: /app/downloads/a.mp4" ++ ["010"%byte];
     p_returncode := 0 |}.

Definition yt_failed : proc_run :=
  {| p_output := bstr "ERROR: Unsupported URL" ++ ["010"%byte];
     p_returncode := 1 |}.

Definition raw_example : text := str "/app/downloads/a.mp4".

(** ffmpeg writes one progress line, ended by a carriage return. *)
Definition ff_line : bytes := bstr "frame=100 time=00:00:30.00 speed=1.5x".

Definition ffmpeg_example (returncode : Z) : ffmpeg_run :=
  {| ff_chunks := [ff_line ++ ["013"%byte]];
     ff_returncode := returncode;
     ff_written := Some 800;
     ff_elapsed := λ _, 10%Q |}.

(** ffprobe prints [N/A] for a file without a duration. *)
Definition probe_na : probe_run := ProbeOutput (bstr "N/A" ++ ["010"%byte]).

Definition job_example (yt : proc_run) (returncode : Z) : job_run :=
  {| j_ytdlp := yt;
     j_downloaded := {[ raw_example := 1000 ]};
     j_probe := probe_na;
     j_ffmpeg := ffmpeg_example returncode;
     j_locked := ∅ |}.

(** Four jobs: the first fails to acquire, the others succeed. *)
Definition runs_example (i : nat) : job_run :=
  match i with
  | O => job_example yt_failed 0
  | _ => job_example yt_ok 0
  end.

(** ** Formatting numbers *)

(** The integer nearest to [x >= 0], the even one of two that are as
    near. *)
Definition round_half_even (x : Q) : Z :=
  let f := Qfloor x in
  match Qcompare (x - inject_Z f) (1 # 2) with
  | Lt => f
  | Gt => (f + 1)%Z
  | Eq => if Z.even f then f else (f + 1)%Z
  end.

(** [s.rjust(width, '0')] *)
Definition zero_pad (width : nat) (s : text) : text :=
  replicate (width - length s) (chr "0") ++ s.

(** [f"{x:.<prec>f}"]: the sign, the integer part and [prec] decimals of
    [x] rounded to the nearest. *)
Definition format_fixed (prec : nat) (x : Q) : text :=
  let magnitude := if Qlt_bool x 0 then (- x)%Q else x in
  let scaled := round_half_even (magnitude * inject_Z (10 ^ Z.of_nat prec)) in
  let ip := (scaled `div` 10 ^ Z.of_nat prec)%Z in
  let fp := (scaled `mod` 10 ^ Z.of_nat prec)%Z in
  (if Qlt_bool x 0 then [chr "-"] else []) ++
  str_of_nat (Z.to_nat ip) ++
  match prec with
  | O => []
  | _ => chr "." :: zero_pad prec (str_of_nat (Z.to_nat fp))
  end.

(** ** The sizes of the summary (lines 52-56) *)

Inductive size_unit := unit_B | unit_KB | unit_MB | unit_GB | unit_TB.

Definition unit_name (u : size_unit) : text :=
  match u with
  | unit_B => str "B"
  | unit_KB => str "KB"
  | unit_MB => str "MB"
  | unit_GB => str "GB"
  | unit_TB => str "TB"
  end.

(** The loop of [fmt]: the number and the unit that are printed. *)
Fixpoint fmt_loop (units : list size_unit) (s : Q) : Q * size_unit :=
  match units with
  | unit :: rest =>
      if Qlt_bool s 1024 then (s, unit) else fmt_loop rest (s / 1024)
  | [] => (s, unit_TB)
  end.

Definition fmt (s : Q) : text :=
  let '(v, unit) := fmt_loop [unit_B; unit_KB; unit_MB; unit_GB] s in
  format_fixed 2 v ++ unit_name unit.

(** ** StationApp.generate_bar_text *)

Definition BAR_WIDTH : Z := 25.

(** [c * n] for a string of one character: empty when [n <= 0]. *)
Definition str_times (c : char) (n : Z) : text := replicate (Z.to_nat n) c.

Definition FULL_BLOCK : char := 9608.
Definition LIGHT_SHADE : char := 9617.

Definition MODE_DL : text := str "mode-dl".
Definition MODE_SANITIZE : text := str "mode-sanitize".
Definition MODE_COMPLETED : text := str "completed".

Definition bar_filled (percent : Q) : Z :=
  int_of_float (percent / 100 * inject_Z BAR_WIDTH).

Definition bar_color (mode : text) : text :=
  let color := str "white" in
  if bool_decide (mode = MODE_DL) then str "#00ffff"
  else if bool_decide (mode = MODE_SANITIZE) then str "#9ece6a"
  else if bool_decide (mode = MODE_COMPLETED) then str "#00ff00"
  else color.

(** Lines 285-296: the markup given to [Text.from_markup]. *)
Definition generate_bar_text (percent : Q) (mode : text) : text :=
  let filled := bar_filled percent in
  let empty := (BAR_WIDTH - filled)%Z in
  let color := bar_color mode in
  chr "[" :: color ++ chr "]" :: str_times FULL_BLOCK filled ++
  str "[/][dim white]" ++ str_times LIGHT_SHADE empty ++ str "[/]".

(** ** StationApp.process_task *)

(** The cells of the row of a task. *)
Record row := {
  r_title : text;
  r_progress : text;
  r_status : text;
}.

Definition DOWN_ARROW : text := [11015; 65039].

(** Line 312. *)
Definition short_title (d : text) : text :=
  if (length d <? 35)%nat then d else take 32 d ++ str "...".

(** Lines 305-336: the callback [cb(p, s, d)], on the mode and the row
    of its task. *)
Definition cb (st : text * row) (e : event) : text * row :=
  let '(current_mode, r) := st in
  let d := ev_detail e in
  match ev_kind e with
  | k_title =>
      (current_mode,
       {| r_title := short_title d; r_progress := r_progress r;
          r_status := r_status r |})
  | k_download_done =>
      let current_mode := MODE_SANITIZE in
      (current_mode,
       {| r_title := r_title r;
          r_progress := generate_bar_text 0 current_mode;
          r_status := str "Sanitizing..." |})
  | k_download =>
      let pct := default 0%Q (ev_percent e) in
      if bool_decide (current_mode = MODE_DL) then
        (current_mode,
         {| r_title := r_title r;
            r_progress := generate_bar_text pct current_mode;
            r_status :=
              match ev_percent e with
              | Some _ =>
                  DOWN_ARROW ++ chr " " :: format_fixed 0 pct ++
                  chr "%" :: chr " " :: d
              | None => DOWN_ARROW ++ chr " " :: d
              end |})
      else (current_mode, r)
  | k_sanitize =>
      let pct := default 0%Q (ev_percent e) in
      if bool_decide (current_mode = MODE_SANITIZE) then
        (current_mode,
         {| r_title := r_title r;
            r_progress := generate_bar_text pct current_mode;
            r_status :=
              format_fixed 0 pct ++ chr "%" :: chr " " :: chr "(" :: d ++
              [chr ")"] |})
      else (current_mode, r)
  end.

(** Lines 260-265: the row added for a submitted URL. *)
Definition initial_row (url : text) : row :=
  {| r_title := url;
     r_progress := generate_bar_text 0 MODE_DL;
     r_status := str "Waiting..." |}.

(** Lines 344-350: the row once the pipeline has returned [res]. *)
Definition final_row (res : option text) (r : row) : row :=
  match res with
  | Some _ =>
      {| r_title := r_title r;
         r_progress := generate_bar_text 100 MODE_COMPLETED;
         r_status := str "Done" |}
  | None =>
      {| r_title := r_title r; r_progress := r_progress r;
         r_status := str "Error" |}
  end.

(** Lines 341-342. *)
Definition decrement_active (active_tasks : Z) : Z :=
  let active_tasks := (active_tasks - 1)%Z in
  if (active_tasks <? 0)%Z then 0%Z else active_tasks.

(** The table: the rows with their keys, in the order of the display. *)
Abbreviation data_table := (list (text * row)).

(** The calls [table.update_cell(task_id, ...)] of a task, each inside a
    [try] whose handler passes: they change the row of the key when the
    table holds it, and nothing otherwise. *)
Definition update_cells (task_id : text) (f : row → row) (table : data_table)
  : data_table :=
  (λ kr, if bool_decide (kr.1 = task_id) then (kr.1, f kr.2) else kr) <$> table.

Section ProcessTask.
Context `{PyLib}.

(** Lines 298-350: the table, the counter and the files when the task of
    [url] ends, given what the job meets. The row of a task is changed
    by this task only, so that the changes of one task are made at once
    here. *)
Definition process_task (url task_id : text) (j : job_run) (fs : fsys)
    (table : data_table) (active_tasks : Z)
  : option (data_table * Z * fsys) :=
  o ← run_pipeline url j fs;
  let cells r := final_row (o_result o) (foldl cb (MODE_DL, r) (o_events o)).2 in
  Some (update_cells task_id cells table, decrement_active active_tasks, o_fs o).

(** ** StationApp: submissions and quitting *)

(** The state of the application: the counter, the table, and the
    workers that run [process_task], each with its URL and its key. *)
Record StationApp := {
  active_tasks : Z;
  table : data_table;
  workers : list (text * text);
}.

Definition initial_app : StationApp :=
  {| active_tasks := 0; table := []; workers := [] |}.

(** Lines 249-272, [task_id] being the key made from the clock. The text
    of the input and the cursor of the table are left out. *)
Definition on_input_submitted (value task_id : text) (a : StationApp) : StationApp :=
  let url := strip value in
  if bool_decide (url = []) then a
  else
    {| active_tasks := (active_tasks a + 1)%Z;
       table := table a ++ [(task_id, initial_row url)];
       workers := workers a ++ [(url, task_id)] |}.

(** Lines 205-206: the value the confirmation screen is dismissed with. *)
Definition on_button_pressed (button_id : text) : bool :=
  bool_decide (button_id = str "quit").

(** Lines 356-362: whether the application exits, [button_id] being the
    button pressed on the confirmation screen when it is shown. *)
Definition action_quit (a : StationApp) (button_id : text) : bool :=
  let check_quit (should_quit : bool) := should_quit in
  if (0 <? active_tasks a)%Z then check_quit (on_button_pressed button_id)
  else true.

(** The steps of the application: a submission, with a key that no row
    has yet, and the end of the task of a worker. Two submissions in the
    same microsecond share their key, and [add_row] raises for the
    second: this case is left out. *)
Inductive app_step : StationApp → StationApp → Prop :=
| step_input value task_id a :
    task_id ∉ (table a).*1 →
    app_step a (on_input_submitted value task_id a)
| step_task_end i url task_id j fs a table' n fs' :
    workers a !! i = Some (url, task_id) →
    process_task url task_id j fs (table a) (active_tasks a) =
      Some (table', n, fs') →
    app_step a {| active_tasks := n; table := table';
                  workers := delete i (workers a) |}.

Inductive app_reach : StationApp → Prop :=
| app_reach_initial : app_reach initial_app
| app_reach_step a a' : app_reach a → app_step a a' → app_reach a'.

End ProcessTask.

(** ** The vocabulary of the further properties *)

(** The newline that ends a line of [readline]. *)
Definition LF_byte : Byte.byte := "010"%byte.

(** A line that [readline] returns whole, and one cut by the end of the
    stream. *)
Definition complete_line (l : bytes) : Prop :=
  ∃ body, l = body ++ [LF_byte] ∧ Forall (λ b, b ≠ LF_byte) body.

Definition partial_line (l : bytes) : Prop :=
  l ≠ [] ∧ Forall (λ b, b ≠ LF_byte) l.

(** The whole of a buffer, drained. *)
Definition drained (b : bytes) : list bytes * bytes := drain (S (length b)) b.

(** An event of the sanitize stage: its kind, and a percent of 99.9 at
    most. *)
Definition sanitize_event (e : event) : Prop :=
  ev_kind e = k_sanitize ∧ ∃ p, ev_percent e = Some p ∧ (p <= 999 # 10)%Q.

(** How many times [fmt] divides by 1024 for a unit. *)
Definition unit_rank (u : size_unit) : Z :=
  match u with
  | unit_B => 0
  | unit_KB => 1
  | unit_MB => 2
  | unit_GB => 3
  | unit_TB => 4
  end.


(** The event of line 39. *)
Definition PREP_EVENT : event := Event (Some 0%Q) k_download_done (str "Prep...").

(** The stems of the output names: the safe stem, [_clean] and, from the
    second candidate on, a number. *)
Definition clean_stem (safe_stem : text) (counter : option nat) : text :=
  safe_stem ++
  match counter with
  | None => str "_clean"
  | Some k => str "_clean_" ++ str_of_nat k
  end.

(** How many times [c] occurs in [s]. *)
Definition count_char (c : char) (s : text) : nat :=
  length (filter (λ x, x = c) s).

(** The texts of the title events, in their order. *)
Definition titles (evs : list event) : list text :=
  omap (λ e, match ev_kind e with
             | k_title => Some (ev_detail e)
             | _ => None
             end) evs.

(** The event that ends the download phase of a task. *)
Definition is_done (e : event) : bool :=
  match ev_kind e with
  | k_download_done => true
  | _ => false
  end.

(** ** More concrete runs *)

(** The line of the merger for the raw file of the examples. *)
Definition merger_line : text :=
  str "[Merger] Merging formats into " ++ DQUOTE :: raw_example ++ [DQUOTE].

(** One URL submitted, its task running. *)
Definition app_example : StationApp :=
  on_input_submitted (str " https://example.org/v ") (str "task_1.5") initial_app.

(** * Properties *)

(** ** The matcher *)

Lemma consumed_nil r g s : consumed r g s → consumed r ([] :: g) s.
Proof. done. Qed.

Lemma consumed_cons r c seg g s :
  consumed r (seg :: g) s → consumed r ((c :: seg) :: g) (c :: s).
Proof. intros (rest & -> & He). by exists rest. Qed.

Lemma consumed_item it r g s :
  it ≠ Eos → consumed r g s → consumed (it :: r) g s.
Proof.
  intros Hit (rest & -> & He). exists rest. split; [done|].
  destruct r as [|it' r]; [simpl; congruence|]. exact He.
Qed.

Lemma seg_cons_Some x o g : seg_cons x o = Some g → ∃ g', o = Some g' ∧ g = x :: g'.
Proof. destruct o; simpl; naive_solver. Qed.

Lemma ext_first_Some c o g :
  ext_first c o = Some g → ∃ seg g', o = Some (seg :: g') ∧ g = (c :: seg) :: g'.
Proof. destruct o as [[|seg g']|]; simpl; naive_solver. Qed.

Lemma greedy_sound p r k s g :
  cont_ok r k → greedy p k s = Some g →
  ∃ seg g', g = seg :: g' ∧ Forall (λ c, p c = true) seg ∧
            Forall2 seg_ok r g' ∧ consumed r g s.
Proof.
  intros Hk. revert g.
  assert (∀ s g, seg_cons [] (k s) = Some g →
      ∃ seg g', g = seg :: g' ∧ Forall (λ c, p c = true) seg ∧
                Forall2 seg_ok r g' ∧ consumed r g s) as Hstop.
  { intros s' g (g' & Hg & ->)%seg_cons_Some. apply Hk in Hg as [? ?].
    exists [], g'. by repeat split. }
  induction s as [|c s IH]; intros g; simpl; [by apply Hstop|].
  destruct (p c) eqn:Hp; [|by apply Hstop].
  destruct (ext_first c (greedy p k s)) as [g0|] eqn:E; [|by apply Hstop].
  intros [= <-]. apply ext_first_Some in E as (seg & g' & E & ->).
  apply IH in E as (seg' & g'' & [= <- <-] & Hall & Hr & Hpre).
  exists (c :: seg), g'. repeat split; try done.
  - by constructor.
  - by apply consumed_cons.
Qed.

Lemma lazy_sound p r k s g :
  cont_ok r k → lazy p k s = Some g →
  ∃ seg g', g = seg :: g' ∧ Forall (λ c, p c = true) seg ∧
            Forall2 seg_ok r g' ∧ consumed r g s.
Proof.
  intros Hk. revert g.
  assert (∀ s g, seg_cons [] (k s) = Some g →
      ∃ seg g', g = seg :: g' ∧ Forall (λ c, p c = true) seg ∧
                Forall2 seg_ok r g' ∧ consumed r g s) as Hstop.
  { intros s' g (g' & Hg & ->)%seg_cons_Some. apply Hk in Hg as [? ?].
    exists [], g'. by repeat split. }
  induction s as [|c s IH]; intros g; simpl.
  - destruct (seg_cons [] (k [])) as [g0|] eqn:E; [|done].
    intros [= <-]. by apply Hstop.
  - destruct (seg_cons [] (k (c :: s))) as [g0|] eqn:E.
    + intros [= <-]. by apply Hstop.
    + destruct (p c) eqn:Hp; [|done].
      intros (seg & g' & E' & ->)%ext_first_Some.
      apply IH in E' as (seg' & g'' & [= <- <-] & Hall & Hr & Hpre).
      exists (c :: seg), g'. repeat split; try done.
      * by constructor.
      * by apply consumed_cons.
Qed.

Lemma rmatch_sound r : cont_ok r (rmatch r).
Proof.
  induction r as [|it r IH]; intros s segs; simpl.
  - intros [= <-]. split; [constructor|]. by exists s.
  - assert (∀ p q s segs, seg_cons [] (rmatch r s) = Some segs →
              seg_ok (Cls p q) [] →
              Forall2 seg_ok (Cls p q :: r) segs ∧ consumed (Cls p q :: r) segs s)
      as Hskip.
    { intros p q s' segs' (g' & Hg & ->)%seg_cons_Some Hok. apply IH in Hg as [? ?].
      split; [by constructor|]. by apply consumed_item, consumed_nil. }
    assert (∀ p q c s segs, seg_cons [c] (rmatch r s) = Some segs →
              seg_ok (Cls p q) [c] →
              Forall2 seg_ok (Cls p q :: r) segs ∧
              consumed (Cls p q :: r) segs (c :: s))
      as Htake.
    { intros p q c s' segs' (g' & Hg & ->)%seg_cons_Some Hok. apply IH in Hg as [? ?].
      split; [by constructor|].
      by apply consumed_item, consumed_cons, consumed_nil. }
    destruct it as [p [| | | |]| | |].
    + destruct s as [|c s]; [done|]. destruct (p c) eqn:Hp; [|done].
      intros Hm. apply Htake; [done|]. by exists c.
    + destruct s as [|c s]; [intros Hm; apply Hskip; [done|by left]|].
      destruct (p c) eqn:Hp; [|intros Hm; apply Hskip; [done|by left]].
      destruct (seg_cons [c] (rmatch r s)) as [g0|] eqn:E;
        [|intros Hm; apply Hskip; [done|by left]].
      intros [= <-]. apply Htake; [done|]. right. by exists c.
    + intros (seg & g' & -> & Hall & Hr & Hpre)%(greedy_sound _ r); [|done].
      split; [by constructor|by apply consumed_item].
    + destruct s as [|c s]; [done|]. destruct (p c) eqn:Hp; [|done].
      intros (seg & g' & E & ->)%ext_first_Some.
      apply (greedy_sound _ r) in E as (seg' & g'' & [= <- <-] & Hall & Hr & Hpre); [|done].
      split; [constructor; [split; [done|by constructor]|done]|].
      by apply consumed_item, consumed_cons.
    + intros (seg & g' & -> & Hall & Hr & Hpre)%(lazy_sound _ r); [|done].
      split; [by constructor|by apply consumed_item].
    + intros (g' & Hg & ->)%seg_cons_Some. apply IH in Hg as [? ?].
      split; [by constructor|]. by apply consumed_item, consumed_nil.
    + intros (g' & Hg & ->)%seg_cons_Some. apply IH in Hg as [? ?].
      split; [by constructor|]. by apply consumed_item, consumed_nil.
    + destruct (at_end s) eqn:He; [|done].
      intros (g' & Hg & ->)%seg_cons_Some. apply IH in Hg as [Hok (rest & -> & Hrest)].
      split; [by constructor|]. exists rest. split; [done|].
      destruct r as [|it' r]; [|exact Hrest].
      intros _. inversion Hok; subst. exact He.
Qed.

(** [re_search] returns a match of the pattern at some position, and
    none when there is no position where the pattern matches. *)
Lemma search_from_Some r rb s m :
  search_from r rb s = Some m →
  ∃ s1 s2 segs, s = s1 ++ s2 ∧ rmatch r s2 = Some segs ∧
    m = {| m_before := rev rb ++ s1; m_whole := concat segs;
           m_groups := groups_from r segs None;
           m_after := drop (length (concat segs)) s2 |}.
Proof.
  revert rb. induction s as [|c s IH]; intros rb; simpl.
  - unfold match_at. destruct (rmatch r []) as [segs|] eqn:E; simpl; [|done].
    intros [= <-]. exists [], [], segs. by rewrite !app_nil_r.
  - unfold match_at. destruct (rmatch r (c :: s)) as [segs|] eqn:E; simpl.
    + intros [= <-]. exists [], (c :: s), segs. by rewrite !app_nil_r.
    + intros (s1 & s2 & segs & -> & Hm & ->)%IH.
      exists (c :: s1), s2, segs. repeat split; try done.
      simpl. by rewrite <- app_assoc.
Qed.

Lemma re_search_Some r s m :
  re_search r s = Some m →
  ∃ s2 segs, s = m_before m ++ s2 ∧ rmatch r s2 = Some segs ∧
    Forall2 seg_ok r segs ∧
    m_whole m = concat segs ∧ m_groups m = groups_from r segs None ∧
    s2 = m_whole m ++ m_after m.
Proof.
  intros (s1 & s2 & segs & -> & Hm & ->)%search_from_Some. simpl.
  exists s2, segs. destruct (rmatch_sound r _ _ Hm) as [Hok (rest & Hpre & _)].
  repeat split; try done.
  rewrite <- (take_drop (length (concat segs)) s2) at 1. f_equal.
  rewrite Hpre. by rewrite take_app_length.
Qed.



Lemma groups_from_cls r1 r2 segs1 segs2 cur :
  Forall is_cls r1 → length r1 = length segs1 →
  groups_from (r1 ++ r2) (segs1 ++ segs2) cur =
  groups_from r2 segs2 (cur ≫= λ g, Some (g ++ concat segs1)).
Proof.
  intros Hc. revert segs1 cur. induction Hc as [|it r1 Hit Hc IH]; intros [|seg segs1] cur; try done.
  - intros _. simpl. destruct cur; simpl; [|done]. by rewrite app_nil_r.
  - intros [= Hl]. simpl. destruct it; try done.
    destruct cur as [g|]; rewrite IH by done; simpl; [|done].
    by rewrite <- app_assoc.
Qed.

Lemma lit_cls s : Forall is_cls (lit s).
Proof. unfold lit. apply Forall_fmap, Forall_true. done. Qed.

(** The first group of a pattern [pre(p+)post] where [pre] has no group:
    the group is not empty. *)
Lemma group1_plus pre p post s m :
  Forall is_cls pre →
  re_search (pre ++ [GOpen; Cls p Plus; GClose] ++ post) s = Some m →
  group 1 m ≠ [] ∧ Forall (λ c, p c = true) (group 1 m).
Proof.
  intros Hpre (s2 & segs & _ & _ & Hok & _ & Hg & _)%re_search_Some.
  apply Forall2_app_inv_l in Hok as (segs1 & segs2 & H1 & H2 & ->).
  apply Forall2_length in H1.
  inversion H2 as [|? seg0 ? segs3 H0 H3]; subst.
  inversion H3 as [|? seg ? segs4 Hs H4]; subst.
  inversion H4 as [|? seg5 ? segs6 H5 H6]; subst.
  simpl in H0, Hs, H5. subst. destruct Hs as [Hne Hall].
  unfold group. rewrite Hg, groups_from_cls by done. simpl.
  done.
Qed.

(** ** The acquisition stage *)

Section DownloadFacts.
Context `{PyLib}.

Lemma f_pattern_group t m : re_search f_pattern t = Some m → group 1 m ≠ [].
Proof. intros Hm. eapply (group1_plus _ _ []); [apply lit_cls|exact Hm]. Qed.

Lemma f_merge_group t m : re_search f_merge t = Some m → group 1 m ≠ [].
Proof.
  intros Hm.
  eapply (group1_plus (lit "[Merger] Merging formats into " ++ [Cls (is_char DQUOTE) One]) _
            [Cls (is_char DQUOTE) One]).
  - apply Forall_app; split; [apply lit_cls|by repeat constructor].
  - unfold f_merge in Hm. rewrite <- app_assoc. exact Hm.
Qed.

Lemma f_exist_group t m : re_search f_exist t = Some m → group 1 m ≠ [].
Proof. intros Hm. eapply group1_plus; [apply lit_cls|exact Hm]. Qed.

Lemma truthy_Some (x : text) : x ≠ [] → truthy (Some x) = true.
Proof. by destruct x. Qed.

Lemma detected_announced t : truthy (detected_name t) = true ↔ announced t.
Proof.
  unfold detected_name, announced.
  destruct (re_search f_exist t) as [m3|] eqn:E3.
  { split; [intros _; right; right; by eexists|intros _].
    by apply truthy_Some, (f_exist_group t). }
  destruct (re_search f_merge t) as [m2|] eqn:E2.
  { split; [intros _; right; left; by eexists|intros _].
    by apply truthy_Some, (f_merge_group t). }
  destruct (re_search f_pattern t) as [m1|] eqn:E1.
  { split; [intros _; left; by eexists|intros _].
    by apply truthy_Some, (f_pattern_group t). }
  split; [done|]. intros [[? [=]]|[[? [=]]|[? [=]]]].
Qed.

Lemma detected_None t : ¬ announced t → truthy (detected_name t) = false.
Proof. rewrite <- detected_announced. by destruct (truthy _). Qed.

Lemma download_loop_snoc lines line :
  download_loop (lines ++ [line]) =
  let '(ff, evs) := download_loop lines in
  let '(ff', e) := download_line ff (strip (decode_replace line)) in
  (ff', evs ++ e).
Proof.
  unfold download_loop. rewrite foldl_app. simpl.
  by destruct (foldl _ _ lines).
Qed.

Lemma download_loop_final lines :
  match (download_loop lines).1 with
  | Some p => last_announced (texts lines) p
  | None => Forall (λ t, ¬ announced t) (texts lines)
  end.
Proof.
  induction lines as [|line lines IH] using rev_ind; [by constructor|].
  rewrite download_loop_snoc. destruct (download_loop lines) as [ff evs]. simpl in IH.
  unfold download_line, texts. rewrite fmap_app. simpl.
  set (t := strip (decode_replace line)).
  destruct (truthy (detected_name t)) eqn:Ht; simpl.
  - destruct (detected_name t) as [p|] eqn:Hd; [|done].
    exists (texts lines), t, []. repeat split; try done.
    apply detected_announced. by rewrite Hd.
  - assert (¬ announced t) as Hn.
    { rewrite <- detected_announced. by rewrite Ht. }
    destruct ff as [p|].
    + destruct IH as (l1 & t' & l2 & E & Ha & Hd & Hl2).
      exists l1, t', (l2 ++ [t]). repeat split; try done.
      * unfold texts in E. rewrite E. by rewrite <- app_assoc.
      * apply Forall_app. split; [done|by constructor].
    + apply Forall_app. split; [done|by constructor].
Qed.

Lemma last_announced_truthy ts p : last_announced ts p → truthy (Some p) = true.
Proof.
  intros (l1 & t & l2 & _ & Ha & Hd & _). rewrite <- Hd. by apply detected_announced.
Qed.

Lemma download_result yt :
  (download yt).1 =
  if (p_returncode yt =? 0)%Z then (download_loop (read_lines [] (p_output yt))).1
  else None.
Proof.
  unfold download. pose proof (download_loop_final (read_lines [] (p_output yt))) as Hf.
  destruct (download_loop _) as [ff evs]; simpl in *.
  destruct (p_returncode yt =? 0)%Z; simpl; [|done].
  destruct ff as [p|]; [|done]. by rewrite (last_announced_truthy _ _ Hf).
Qed.

End DownloadFacts.

Section DownloadTheorems.
Context `{PyLib}.

Lemma last_announced_unique ts p p' :
  last_announced ts p → last_announced ts p' → p = p'.
Proof.
  intros (l1 & t & l2 & -> & Ha & Hd & Hl2) (l1' & t' & l2' & E & Ha' & Hd' & Hl2').
  revert l1' E. induction l1 as [|x l1 IH]; intros [|x' l1'] E; simplify_eq/=.
  - congruence.
  - exfalso. rewrite Forall_forall in Hl2. eapply (Hl2 t'); [|done].
    apply elem_of_app. right. by left.
  - exfalso. rewrite Forall_forall in Hl2'. eapply (Hl2' t); [|done].
    apply elem_of_app. right. by left.
  - by eapply IH.
Qed.

Lemma announced_Exists ts p : last_announced ts p → Exists announced ts.
Proof. intros (l1 & t & l2 & -> & Ha & _). apply Exists_app. right. by left. Qed.

Lemma announced_not_Forall ts :
  Exists announced ts → Forall (λ t, ¬ announced t) ts → False.
Proof.
  intros (t & Ht & Hat)%Exists_exists Ha.
  rewrite Forall_forall in Ha. by apply (Ha t).
Qed.

Lemma download_Some_iff yt p :
  (download yt).1 = Some p ↔
  p_returncode yt = 0%Z ∧
  last_announced (texts (read_lines [] (p_output yt))) p.
Proof.
  rewrite download_result.
  pose proof (download_loop_final (read_lines [] (p_output yt))) as Hf.
  destruct (Z.eqb_spec (p_returncode yt) 0) as [Hrc|Hrc];
    [|split; [done|by intros [? _]]].
  destruct (download_loop _).1 as [p'|].
  - split.
    + by intros [= <-].
    + intros [_ Hp]. f_equal. by eapply last_announced_unique.
  - split; [done|]. intros [_ Hp%announced_Exists].
    by destruct (announced_not_Forall _ Hp).
Qed.

Lemma download_None_iff yt :
  (download yt).1 = None ↔
  p_returncode yt ≠ 0%Z ∨
  Forall (λ t, ¬ announced t) (texts (read_lines [] (p_output yt))).
Proof.
  rewrite download_result.
  pose proof (download_loop_final (read_lines [] (p_output yt))) as Hf.
  destruct (Z.eqb_spec (p_returncode yt) 0) as [Hrc|Hrc];
    [|split; [by left|done]].
  destruct (download_loop _).1 as [p'|].
  - split; [done|]. intros [?|Ha]; [done|].
    apply announced_Exists in Hf. by destruct (announced_not_Forall _ Hf).
  - split; [by right|done].
Qed.

Lemma run_pipeline_not_acquired url j fs :
  (download (j_ytdlp j)).1 = None →
  run_pipeline url j fs =
  Some {| o_result := None; o_events := (download (j_ytdlp j)).2;
          o_log := [LogStartExtraction url; LogExtractionFailed url];
          o_fs := j_downloaded j ∪ fs |}.
Proof.
  intros E. unfold run_pipeline. destruct (download (j_ytdlp j)) as [r evs].
  simpl in E. by subst.
Qed.

(** C2: the acquisition stage returns a path exactly when yt-dlp exits
    with code zero and some line of its output announced a file name;
    the path is then the announced one. In every other case it returns
    no path, and the pipeline ends there with no result: yt-dlp is not
    run again, the events are those of this one run. *)
Theorem download_succeeds_iff (yt : proc_run) :
  let ts := texts (read_lines [] (p_output yt)) in
  (is_Some (download yt).1 ↔ p_returncode yt = 0%Z ∧ Exists announced ts) ∧
  (∀ p, (download yt).1 = Some p ↔
        p_returncode yt = 0%Z ∧ last_announced ts p) ∧
  ((download yt).1 = None ↔
   p_returncode yt ≠ 0%Z ∨ Forall (λ t, ¬ announced t) ts) ∧
  ((download yt).1 = None →
   ∀ url j fs, j_ytdlp j = yt →
     ∃ o, run_pipeline url j fs = Some o ∧ o_result o = None ∧
          o_events o = (download yt).2 ∧ o_fs o = j_downloaded j ∪ fs).
Proof.
  intros ts. split; [|split; [|split]].
  - split.
    + intros [p Hp]. apply download_Some_iff in Hp as [Hrc Hp].
      split; [done|]. by eapply announced_Exists.
    + intros [Hrc He]. destruct (download yt).1 eqn:E; [done|].
      apply download_None_iff in E as [?|Ha]; [done|].
      by destruct (announced_not_Forall _ He).
  - apply download_Some_iff.
  - apply download_None_iff.
  - intros E url j fs <-. eexists. split; [by apply run_pipeline_not_acquired|done].
Qed.

(** C10: in one line the announcement "has already been downloaded"
    wins over the one of the merger, which wins over "Destination", and
    the path that the acquisition stage returns is the name of the last
    line of the run that announces one. *)
Theorem announcement_precedence :
  (∀ t, detected_name t =
        match re_search f_exist t with
        | Some m => Some (group 1 m)
        | None =>
            match re_search f_merge t with
            | Some m => Some (group 1 m)
            | None =>
                match re_search f_pattern t with
                | Some m => Some (group 1 m)
                | None => None
                end
            end
        end) ∧
  (∀ yt p, (download yt).1 = Some p →
           last_announced (texts (read_lines [] (p_output yt))) p).
Proof.
  split.
  - intros t. unfold detected_name.
    by destruct (re_search f_exist t), (re_search f_merge t).
  - intros yt p. rewrite download_result. destruct (_ =? _)%Z; [|done].
    pose proof (download_loop_final (read_lines [] (p_output yt))) as Hf.
    intros E. by rewrite E in Hf.
Qed.

End DownloadTheorems.

(** A line that matches both the first and the third pattern: the name
    is the one of the third. *)
Example precedence_example :
  let t := str "[download] Destination: x has already been downloaded" in
  group 1 <$> re_search f_pattern t = Some (str "x has already been downloaded") ∧
  group 1 <$> re_search f_exist t = Some (str "Destination: x") ∧
  detected_name t = Some (str "Destination: x").
Proof. vm_compute. done. Qed.

(** ** The timestamps of ffmpeg *)

Section SanitizeFacts.
Context `{PyLib}.





Lemma split_on_last sep cur a :
  Forall (λ c, c ≠ sep) a → split_on sep cur a = [rev cur ++ a].
Proof.
  intros Ha. revert cur. induction Ha as [|c a Hc Ha IH]; intros cur; simpl.
  - by rewrite app_nil_r.
  - destruct (N.eqb_spec c sep); [done|]. rewrite IH. simpl.
    by rewrite <- app_assoc.
Qed.




Lemma min2_le x y : (min2 x y <= y)%Q.
Proof.
  unfold min2, Qlt_bool. destruct (Qle_bool x y) eqn:E; simpl.
  - by apply Qle_bool_iff.
  - apply Qle_refl.
Qed.




End SanitizeFacts.


(** ** The output path *)

Section NamingFacts.
Context `{PyLib}.

Lemma str_inj s1 s2 : str s1 = str s2 → s1 = s2.
Proof.
  unfold str. intros E.
  rewrite <- (string_of_list_ascii_of_string s1), <- (string_of_list_ascii_of_string s2).
  f_equal. revert E. generalize (list_ascii_of_string s1) (list_ascii_of_string s2).
  induction l as [|a l IH]; intros [|b l']; simpl; try done.
  intros [= Hab Hl]. f_equal; [|by apply IH].
  by rewrite <- (ascii_N_embedding a), <- (ascii_N_embedding b), Hab.
Qed.

Lemma str_of_nat_inj n n' : str_of_nat n = str_of_nat n' → n = n'.
Proof.
  unfold str_of_nat. intros E%str_inj.
  apply DecimalNat.Unsigned.to_uint_inj.
  assert (Some (Nat.to_uint n) = Some (Nat.to_uint n')) as [= ->]; [|done].
  by rewrite <- !NilEmpty.usu, E.
Qed.

Lemma numbered_inj stem k k' : numbered stem k = numbered stem k' → k = k'.
Proof.
  unfold numbered, path_join. intros E.
  apply app_inv_head in E. apply (f_equal (drop 1)) in E. cbn [drop] in E.
  do 2 apply app_inv_head in E. apply app_inv_tail in E.
  by apply str_of_nat_inj.
Qed.

Lemma first_not_numbered stem k :
  path_join SAFE_DIR (stem ++ str "_clean.mp4") ≠ numbered stem k.
Proof.
  unfold numbered, path_join. intros E.
  apply app_inv_head in E. apply (f_equal (drop 1)) in E. cbn [drop] in E.
  apply app_inv_head in E. apply (f_equal (λ l, l !! 6%nat)) in E.
  vm_compute in E. discriminate E.
Qed.

(** What the loop of line 130 returns. *)
Lemma collision_loop_spec fuel fs stem p c :
  match collision_loop fuel fs stem p c with
  | Some q =>
      path_exists fs q = false ∧
      (q = p ∨
       path_exists fs p = true ∧
       ∃ k, (c ≤ k)%nat ∧ q = numbered stem k ∧
            ∀ j, (c ≤ j < k)%nat → path_exists fs (numbered stem j) = true)
  | None =>
      fuel = O ∨
      path_exists fs p = true ∧
      ∀ j, (c ≤ j < c + (fuel - 1))%nat →
           path_exists fs (numbered stem j) = true
  end.
Proof.
  revert p c. induction fuel as [|fuel IH]; intros p c; simpl; [by left|].
  destruct (path_exists fs p) eqn:Hp; [|by split; [|left]].
  specialize (IH (numbered stem c) (S c)).
  destruct (collision_loop fuel fs stem (numbered stem c) (S c)) as [q|].
  - destruct IH as [Hq [->|(Hc & k & Hk & -> & Hj)]]; (split; [done|right; split; [done|]]).
    + exists c. split_and!; [lia|done|]. intros j ?. lia.
    + exists k. split_and!; [lia|done|]. intros j ?.
      destruct (decide (j = c)) as [->|]; [done|]. apply Hj. lia.
  - right. split; [done|]. intros j Hj.
    destruct IH as [->|[Hc IH]]; [lia|].
    destruct (decide (j = c)) as [->|]; [done|]. apply IH. lia.
Qed.

Lemma path_exists_dom (fs : fsys) p : path_exists fs p = true ↔ p ∈ dom fs.
Proof. unfold path_exists. by rewrite bool_decide_eq_true, elem_of_dom. Qed.

(** The loop ends: the candidates are pairwise different and only
    [size fs] paths exist. *)
Lemma output_path_total (fs : fsys) stem : is_Some (output_path_for fs stem).
Proof.
  unfold output_path_for. set (safe := safe_stem_of stem).
  pose proof (collision_loop_spec (S (size fs)) fs safe
                (path_join SAFE_DIR (safe ++ str "_clean.mp4")) 1) as Hs.
  destruct (collision_loop _ _ _ _ _) as [q|]; [done|exfalso].
  destruct Hs as [[=]|[Hp Hj]].
  set (cands := path_join SAFE_DIR (safe ++ str "_clean.mp4") ::
                (numbered safe <$> seq 1 (size fs))).
  assert (NoDup cands) as Hnd.
  { constructor.
    - intros (k & Hk & _)%list_elem_of_fmap. by eapply first_not_numbered.
    - apply NoDup_fmap_2; [intros k k'; apply numbered_inj|apply NoDup_seq]. }
  assert (list_to_set (C := gset text) cands ⊆ dom fs) as Hsub.
  { intros x [->|(k & -> & Hk%elem_of_seq)%list_elem_of_fmap]%elem_of_list_to_set%elem_of_cons.
    - by apply path_exists_dom.
    - apply path_exists_dom, Hj. simpl. lia. }
  apply subseteq_size in Hsub.
  rewrite size_list_to_set, size_dom in Hsub by done.
  unfold cands in Hsub. simpl in Hsub. rewrite length_fmap, length_seq in Hsub. lia.
Qed.

Lemma output_path_not_existing (fs : fsys) stem q :
  output_path_for fs stem = Some q → path_exists fs q = false.
Proof.
  intros Hq. unfold output_path_for in Hq.
  pose proof (collision_loop_spec (S (size fs)) fs (safe_stem_of stem)
                (path_join SAFE_DIR (safe_stem_of stem ++ str "_clean.mp4")) 1) as Hs.
  rewrite Hq in Hs. by destruct Hs.
Qed.

(** C7: the output path does not exist when it is chosen; it is the
    first of [<stem>_clean.mp4], [<stem>_clean_1.mp4],
    [<stem>_clean_2.mp4], ... that does not exist; and once the chosen
    path is created, a second call for the same title returns another
    path. *)
Theorem output_path_fresh (fs : fsys) (stem : text) :
  let safe := safe_stem_of stem in
  let first := path_join SAFE_DIR (safe ++ str "_clean.mp4") in
  ∃ p, output_path_for fs stem = Some p ∧
    path_exists fs p = false ∧
    (p = first ∨
     path_exists fs first = true ∧
     ∃ k, (1 ≤ k)%nat ∧
          p = path_join SAFE_DIR
                (safe ++ str "_clean_" ++ str_of_nat k ++ str ".mp4") ∧
          ∀ j, (1 ≤ j < k)%nat → path_exists fs (numbered safe j) = true) ∧
    ∀ n, ∃ p', output_path_for (<[p := n]> fs) stem = Some p' ∧ p' ≠ p.
Proof.
  intros safe first.
  destruct (output_path_total fs stem) as [p Hp]. exists p. split; [done|].
  split; [by eapply output_path_not_existing|]. split.
  - unfold output_path_for in Hp.
    pose proof (collision_loop_spec (S (size fs)) fs safe first 1) as Hs.
    fold safe first in Hp. rewrite Hp in Hs. destruct Hs as [_ Hs]. exact Hs.
  - intros n. destruct (output_path_total (<[p := n]> fs) stem) as [p' Hp'].
    exists p'. split; [done|]. intros ->. apply output_path_not_existing in Hp'.
    unfold path_exists in Hp'. rewrite lookup_insert_eq in Hp'.
    by rewrite bool_decide_eq_true_2 in Hp'.
Qed.

End NamingFacts.

(** ** The safe stem *)

Section SafeStemFacts.
Context `{PyLib}.

Lemma UNSAFE_items : UNSAFE = [60; 62; 58; 34; 47; 92; 124; 63; 42].
Proof. reflexivity. Qed.

Lemma unsafe_ascii c : c ∈ UNSAFE → 32 ≤ c ≤ 126 ∧ (c < 48 ∨ 57 < c) ∧ c ≠ 95.
Proof.
  rewrite UNSAFE_items. rewrite !elem_of_cons, elem_of_nil. lia.
Qed.

Lemma printable_ascii c : 32 ≤ c ≤ 126 → isprintable c = true.
Proof.
  intros Hc. rewrite isprintable_ascii by lia.
  apply andb_true_iff. split; apply N.leb_le; lia.
Qed.

(** [re.sub] with a pattern of one character class maps the
    characters. *)
Lemma re_sub_class p x s :
  re_sub [Cls p One] [x] s = (λ c, if p c then x else c) <$> s.
Proof.
  unfold re_sub. induction s as [|c s IH]; [done|].
  simpl. destruct (p c); simpl; by rewrite IH.
Qed.

Lemma replace_unsafe_printable c :
  isprintable (replace_unsafe c) = isprintable c.
Proof.
  unfold replace_unsafe, is_unsafe. case_bool_decide as Hc; [|done].
  apply unsafe_ascii in Hc. rewrite !printable_ascii; [done|lia|].
  change (chr "_") with 95. lia.
Qed.

Lemma replace_unsafe_safe c : replace_unsafe c ∉ UNSAFE.
Proof.
  unfold replace_unsafe, is_unsafe. case_bool_decide as Hc; [|done].
  intros Hu%unsafe_ascii. by destruct Hu as (_ & _ & []).
Qed.

Lemma filter_fmap_same (f : char → char) (p : char → bool) (s : text) :
  (∀ c, p (f c) = p c) →
  filter (λ c, p c = true) (f <$> s) = f <$> filter (λ c, p c = true) s.
Proof.
  intros Hf. induction s as [|c s IH]; [done|].
  rewrite fmap_cons, !filter_cons, Hf.
  case_decide; [|done]. by rewrite fmap_cons, IH.
Qed.

Lemma safe_stem_of_eq stem :
  safe_stem_of stem =
  replace_unsafe <$> filter (λ c, isprintable c = true) stem.
Proof.
  unfold safe_stem_of. change (str "_") with [chr "_"]. rewrite re_sub_class.
  apply (filter_fmap_same replace_unsafe), replace_unsafe_printable.
Qed.

Lemma safe_char_ascii c :
  (32 ≤ c ≤ 126) → (c ∉ [60; 62; 58; 34; 47; 92; 124; 63; 42]) → safe_char c.
Proof. intros Hc Hn. split; [by rewrite UNSAFE_items|by apply printable_ascii]. Qed.

Lemma str_cons a s : str (String a s) = N_of_ascii a :: str s.
Proof. reflexivity. Qed.

Lemma str_of_nat_safe n : Forall safe_char (str_of_nat n).
Proof.
  unfold str_of_nat.
  induction (Nat.to_uint n) as [|d IH|d IH|d IH|d IH|d IH|d IH|d IH|d IH|d IH|d IH];
    [constructor|..]; cbn [NilEmpty.string_of_uint]; rewrite str_cons;
    (constructor; [|done]);
    match goal with
    | |- safe_char ?c => let v := eval vm_compute in c in change c with v
    end;
    (apply safe_char_ascii; [lia|rewrite !elem_of_cons, elem_of_nil; lia]).
Qed.

Lemma literal_safe (s : string) :
  forallb (λ c, (32 <=? c) && (c <=? 126) &&
                negb (bool_decide (c ∈ [60; 62; 58; 34; 47; 92; 124; 63; 42])))
          (str s) = true →
  Forall safe_char (str s).
Proof.
  rewrite forallb_forall, Forall_forall. intros Hs c Hc.
  apply list_elem_of_In, Hs in Hc.
  apply andb_true_iff in Hc as [[H1 H2]%andb_true_iff H3].
  apply N.leb_le in H1, H2. apply negb_true_iff, bool_decide_eq_false in H3.
  by apply safe_char_ascii.
Qed.

Lemma safe_stem_safe stem : Forall safe_char (safe_stem_of stem).
Proof.
  rewrite safe_stem_of_eq. apply Forall_fmap, Forall_forall.
  intros c [Hp _]%list_elem_of_filter. split; simpl.
  - apply replace_unsafe_safe.
  - by rewrite replace_unsafe_printable.
Qed.

(** C6: the stem of the output name is the title with every character
    of [UNSAFE] replaced by an underscore and every character that is
    not printable dropped, the other characters being kept as they are
    and in their order; the whole output name holds no character of
    [UNSAFE] and only printable characters. *)
Theorem safe_stem_spec (stem : text) :
  safe_stem_of stem =
    (λ c, if bool_decide (c ∈ UNSAFE) then chr "_" else c) <$>
      filter (λ c, isprintable c = true) stem ∧
  Forall (λ c, (c ∉ UNSAFE) ∧ isprintable c = true) (safe_stem_of stem) ∧
  ∀ fs p, output_path_for fs stem = Some p →
    ∃ name, p = path_join SAFE_DIR name ∧
            safe_stem_of stem `prefix_of` name ∧
            Forall (λ c, (c ∉ UNSAFE) ∧ isprintable c = true) name.
Proof.
  split; [apply safe_stem_of_eq|]. split; [apply safe_stem_safe|].
  intros fs p Hp. unfold output_path_for in Hp.
  pose proof (collision_loop_spec (S (size fs)) fs (safe_stem_of stem)
                (path_join SAFE_DIR (safe_stem_of stem ++ str "_clean.mp4")) 1) as Hs.
  rewrite Hp in Hs. destruct Hs as [_ [->|(_ & k & _ & -> & _)]].
  - eexists. split; [done|]. split; [by apply prefix_app_r|].
    apply Forall_app. split; [apply safe_stem_safe|].
    by apply literal_safe.
  - eexists. split; [done|]. split; [by apply prefix_app_r|].
    repeat (apply Forall_app; split);
      [apply safe_stem_safe|by apply literal_safe|apply str_of_nat_safe|by apply literal_safe].
Qed.

End SafeStemFacts.

(** ** The pipeline *)

Section PipelineFacts.
Context `{PyLib}.

Lemma run_pipeline_acquired url j fs raw_file :
  (download (j_ytdlp j)).1 = Some raw_file →
  ∃ out, output_path_for (j_downloaded j ∪ fs) (path_stem raw_file) = Some out ∧
    let fs1 := j_downloaded j ∪ fs in
    let fs2 := ffmpeg_effect (j_ffmpeg j) out fs1 in
    let evs := (download (j_ytdlp j)).2 ++
               [Event (Some 0%Q) k_download_done (str "Prep...")] ++
               sanitize_events (get_duration (j_probe j)) (j_ffmpeg j) in
    path_exists fs1 out = false ∧
    ∃ log,
      run_pipeline url j fs =
      Some (if (ff_returncode (j_ffmpeg j) =? 0)%Z
            then {| o_result := Some out; o_events := evs; o_log := log;
                    o_fs := default fs2 (os_remove (j_locked j) raw_file fs2) |}
            else {| o_result := None; o_events := evs; o_log := log;
                    o_fs := fs2 |}).
Proof.
  intros Hd.
  destruct (output_path_total (j_downloaded j ∪ fs) (path_stem raw_file))
    as [out Hout].
  pose proof (output_path_not_existing _ _ _ Hout) as Hfresh.
  exists out. split; [done|]. simpl. split; [done|].
  unfold run_pipeline, sanitize.
  destruct (download (j_ytdlp j)) as [r evs]. simpl in Hd. subst r.
  rewrite Hout. simpl.
  destruct (ff_returncode (j_ffmpeg j) =? 0)%Z; simpl; rewrite <- app_assoc; eauto.
Qed.

Lemma os_remove_lookup (locked : gset text) (raw_file : text) (fs : fsys) :
  raw_file ∉ locked →
  default fs (os_remove locked raw_file fs) = delete raw_file fs.
Proof.
  intros Hl. unfold os_remove, path_exists.
  rewrite (bool_decide_eq_false_2 _ Hl). simpl. rewrite andb_true_r.
  case_bool_decide as He; simpl; [done|].
  symmetry. apply delete_id. by apply eq_None_not_Some.
Qed.

Lemma os_remove_locked (locked : gset text) (raw_file : text) (fs : fsys) :
  raw_file ∈ locked → default fs (os_remove locked raw_file fs) = fs.
Proof.
  intros Hl. unfold os_remove.
  rewrite (bool_decide_eq_true_2 _ Hl). simpl. by rewrite andb_false_r.
Qed.

Lemma ffmpeg_effect_other (ff : ffmpeg_run) (out : text) (fs : fsys) (p : text) :
  p ≠ out → ffmpeg_effect ff out fs !! p = fs !! p.
Proof.
  intros Hp. unfold ffmpeg_effect. destruct (ff_written ff); [|done].
  by rewrite lookup_insert_ne.
Qed.

(** C3: after a successful acquisition the pipeline removes the raw file
    exactly when ffmpeg exits with code zero. On success the result is
    the clean file whether or not [os.remove] raises, and the raw file is
    gone unless the removal is refused; on failure there is no result and
    the pipeline leaves the file system as ffmpeg left it, the raw file
    included. *)
Theorem raw_file_removed_iff (url : text) (j : job_run) (fs : fsys)
    (raw_file : text) :
  (download (j_ytdlp j)).1 = Some raw_file →
  ∃ o out,
    run_pipeline url j fs = Some o ∧
    let fs1 := j_downloaded j ∪ fs in
    let fs2 := ffmpeg_effect (j_ffmpeg j) out fs1 in
    (ff_returncode (j_ffmpeg j) = 0%Z →
       o_result o = Some out ∧
       o_fs o = default fs2 (os_remove (j_locked j) raw_file fs2) ∧
       (raw_file ∉ j_locked j → o_fs o = delete raw_file fs2) ∧
       (raw_file ∈ j_locked j → o_fs o = fs2)) ∧
    (ff_returncode (j_ffmpeg j) ≠ 0%Z →
       o_result o = None ∧ o_fs o = fs2 ∧
       (is_Some (fs1 !! raw_file) → o_fs o !! raw_file = fs1 !! raw_file)) ∧
    (is_Some (fs1 !! raw_file) → raw_file ∉ j_locked j →
       (o_fs o !! raw_file = None ↔ ff_returncode (j_ffmpeg j) = 0%Z)).
Proof.
  intros Hd.
  destruct (run_pipeline_acquired url j fs raw_file Hd)
    as (out & Hout & Hfresh & log & Hrun).
  simpl in Hfresh, Hrun. eexists _, out. split; [exact Hrun|]. simpl.
  assert (is_Some ((j_downloaded j ∪ fs) !! raw_file) → raw_file ≠ out) as Hne.
  { intros Hs ->. unfold path_exists in Hfresh.
    by rewrite bool_decide_eq_true_2 in Hfresh. }
  destruct (Z.eqb_spec (ff_returncode (j_ffmpeg j)) 0) as [Hrc|Hrc]; simpl.
  - split_and!; try done.
    + intros _. split_and!; try done.
      * apply os_remove_lookup.
      * apply os_remove_locked.
    + intros Hs Hl. rewrite os_remove_lookup by done.
      by rewrite lookup_delete_eq.
  - split_and!; try done.
    + intros _. split_and!; try done.
      intros Hs. apply ffmpeg_effect_other. by apply Hne.
    + intros Hs Hl. rewrite ffmpeg_effect_other by (by apply Hne).
      split; [|done]. intros E. rewrite E in Hs. by destruct Hs.
Qed.

Lemma get_duration_failed pr : probe_failed pr → get_duration pr = None.
Proof.
  destruct pr as [|out]; [done|]. simpl. by destruct (decode_strict out).
Qed.

Lemma sanitize_line_unknown elapsed t : sanitize_line None elapsed t = [].
Proof. unfold sanitize_line. by destruct (re_search time_pattern t). Qed.

Lemma sanitize_events_unknown ff : sanitize_events None ff = [].
Proof.
  unfold sanitize_events. generalize (ff_elapsed ff).
  induction (sanitize_lines (ff_chunks ff) []) as [|l ls IH]; intros clock; [done|].
  simpl. rewrite sanitize_line_unknown. apply (IH (clock ∘ S)).
Qed.

(** C8, as the code has it: when the probe fails the duration is
    unknown; the sanitization stage still runs and its result depends on
    the exit code of ffmpeg only, so the job does not fail for it; and
    the stage then reports no progress event at all. *)
Theorem probe_failure_degrades (pr : probe_run) :
  probe_failed pr →
  get_duration pr = None ∧
  (∀ ff, sanitize_events (get_duration pr) ff = []) ∧
  (∀ input_path ff fs,
     ∃ out, sanitize input_path pr ff fs =
            Some (if (ff_returncode ff =? 0)%Z then Some out else None, [],
                  ffmpeg_effect ff out fs)) ∧
  (∀ url j fs raw_file,
     j_probe j = pr → (download (j_ytdlp j)).1 = Some raw_file →
     ff_returncode (j_ffmpeg j) = 0%Z →
     ∃ o, run_pipeline url j fs = Some o ∧ is_Some (o_result o)).
Proof.
  intros Hf. pose proof (get_duration_failed pr Hf) as Hd.
  split; [done|]. split; [|split].
  - intros ff. rewrite Hd. apply sanitize_events_unknown.
  - intros input_path ff fs.
    destruct (output_path_total fs (path_stem input_path)) as [out Hout].
    exists out. unfold sanitize. rewrite Hout, Hd. simpl.
    by rewrite sanitize_events_unknown.
  - intros url j fs raw_file Hj Hdl Hrc.
    destruct (run_pipeline_acquired url j fs raw_file Hdl)
      as (out & _ & _ & log & Hrun).
    simpl in Hrun. rewrite Hrc in Hrun. simpl in Hrun. eauto.
Qed.

End PipelineFacts.

(** ** Lines *)

Section LineFacts.
Context `{PyLib}.

Lemma find_ge c buffer : (-1 ≤ find c buffer)%Z.
Proof.
  induction buffer as [|x rest IH]; simpl; [lia|].
  destruct (Byte.eqb x c); [lia|]. destruct (Z.eqb_spec (find c rest) (-1)); lia.
Qed.

Lemma next_idx_cons x rest :
  next_idx (x :: rest) =
  if is_delim x then 0%Z
  else if (next_idx rest =? -1)%Z then (-1)%Z else (next_idx rest + 1)%Z.
Proof.
  unfold next_idx, is_delim. simpl.
  pose proof (find_ge "013" rest). pose proof (find_ge "010" rest).
  destruct (Byte.eqb x "013"), (Byte.eqb x "010"); simpl;
    destruct (Z.eqb_spec (find "013" rest) (-1)),
             (Z.eqb_spec (find "010" rest) (-1));
    repeat match goal with
           | |- context [(?a =? ?b)%Z] => destruct (Z.eqb_spec a b)
           end; lia.
Qed.

Lemma next_idx_split buffer :
  match split_first buffer with
  | None => next_idx buffer = (-1)%Z
  | Some (l, r) =>
      (0 ≤ next_idx buffer)%Z ∧
      take (Z.to_nat (next_idx buffer)) buffer = l ∧
      drop (Z.to_nat (next_idx buffer) + 1) buffer = r
  end.
Proof.
  induction buffer as [|x rest IH]; [done|].
  rewrite next_idx_cons. simpl. destruct (is_delim x); [done|].
  destruct (split_first rest) as [[l r]|]; simpl.
  - destruct IH as (Hi & <- & <-).
    destruct (Z.eqb_spec (next_idx rest) (-1)); [lia|].
    split; [lia|]. replace (Z.to_nat (next_idx rest + 1)) with (S (Z.to_nat (next_idx rest))) by lia.
    done.
  - by rewrite IH.
Qed.

Lemma same_byte_delim a b : same_byte a b → is_delim a = is_delim b.
Proof. by intros [->|[-> ->]]. Qed.

Lemma split_first_same b1 b2 :
  Forall2 same_byte b1 b2 →
  match split_first b1, split_first b2 with
  | Some (l1, r1), Some (l2, r2) => l1 = l2 ∧ Forall2 same_byte r1 r2
  | None, None => True
  | _, _ => False
  end.
Proof.
  induction 1 as [|a b b1 b2 Hab Hb IH]; [done|]. simpl.
  rewrite <- (same_byte_delim _ _ Hab). destruct (is_delim a) eqn:Ha; [done|].
  destruct (split_first b1) as [[l1 r1]|], (split_first b2) as [[l2 r2]|];
    simpl; try done.
  destruct IH as [-> Hr]. split; [|done].
  destruct Hab as [->|[Ha' _]]; [done|congruence].
Qed.

Lemma drain_step fuel buffer :
  drain (S fuel) buffer =
  match split_first buffer with
  | None => ([], buffer)
  | Some (l, r) => let '(ls, b) := drain fuel r in (l :: ls, b)
  end.
Proof.
  cbn [drain]. pose proof (next_idx_split buffer) as Hs.
  destruct (split_first buffer) as [[l r]|].
  - destruct Hs as (Hi & <- & <-).
    destruct (Z.eqb_spec (next_idx buffer) (-1)); [lia|]. done.
  - by rewrite Hs.
Qed.

Lemma drain_same fuel b1 b2 :
  Forall2 same_byte b1 b2 →
  (drain fuel b1).1 = (drain fuel b2).1 ∧
  Forall2 same_byte (drain fuel b1).2 (drain fuel b2).2.
Proof.
  revert b1 b2. induction fuel as [|fuel IH]; intros b1 b2 Hb; [done|].
  rewrite !drain_step. pose proof (split_first_same b1 b2 Hb) as Hs.
  destruct (split_first b1) as [[l1 r1]|], (split_first b2) as [[l2 r2]|]; try done.
  destruct Hs as [-> Hr]. specialize (IH r1 r2 Hr).
  destruct (drain fuel r1), (drain fuel r2). simpl in *.
  destruct IH as [-> ?]. done.
Qed.

Lemma sanitize_lines_cons x chunk rest buffer :
  sanitize_lines ((x :: chunk) :: rest) buffer =
  let '(ls, b) := drain (S (length (buffer ++ x :: chunk))) (buffer ++ x :: chunk) in
  ls ++ sanitize_lines rest b.
Proof. reflexivity. Qed.

Lemma sanitize_lines_same chunks1 chunks2 b1 b2 :
  Forall2 (Forall2 same_byte) chunks1 chunks2 → Forall2 same_byte b1 b2 →
  sanitize_lines chunks1 b1 = sanitize_lines chunks2 b2.
Proof.
  intros Hc. revert b1 b2.
  induction Hc as [|c1 c2 cs1 cs2 Hc Hcs IH]; intros b1 b2 Hb; [done|].
  destruct Hc as [|x1 x2 c1 c2 Hx Hc]; [done|].
  rewrite !sanitize_lines_cons.
  assert (Forall2 same_byte (b1 ++ x1 :: c1) (b2 ++ x2 :: c2)) as Hbc.
  { apply Forall2_app; [done|by constructor]. }
  rewrite (Forall2_length _ _ _ Hbc).
  pose proof (drain_same (S (length (b2 ++ x2 :: c2))) _ _ Hbc) as [Hl Hr].
  destruct (drain _ (b1 ++ x1 :: c1)), (drain _ (b2 ++ x2 :: c2)).
  simpl in Hl, Hr. subst. f_equal. by apply IH.
Qed.

#[global] Instance same_byte_reflexive : Reflexive same_byte.
Proof. intros b. by left. Qed.

(** The loop of the sanitize stage leaves with a buffer that holds no
    delimiter: the fuel given to [drain] is enough. *)
Lemma split_first_length buffer l r :
  split_first buffer = Some (l, r) → (length r < length buffer)%nat.
Proof.
  revert l r. induction buffer as [|x rest IH]; intros l r; simpl; [done|].
  destruct (is_delim x); [intros [= <- <-]; lia|].
  destruct (split_first rest) as [[l' r']|]; simpl; [|done].
  intros [= <- <-]. specialize (IH _ _ eq_refl). lia.
Qed.

Lemma drain_complete fuel buffer :
  (length buffer < fuel)%nat → split_first (drain fuel buffer).2 = None.
Proof.
  revert buffer. induction fuel as [|fuel IH]; intros buffer Hl; [lia|].
  rewrite drain_step. destruct (split_first buffer) as [[l r]|] eqn:E; [|done].
  apply split_first_length in E. specialize (IH r ltac:(lia)).
  by destruct (drain fuel r).
Qed.

Lemma split_first_line line (d : Byte.byte) rest :
  Forall (λ b, is_delim b = false) line → is_delim d = true →
  split_first (line ++ d :: rest) = Some (line, rest).
Proof.
  intros Hl Hd. induction Hl as [|x line Hx Hl IH]; simpl; [by rewrite Hd|].
  by rewrite Hx, IH.
Qed.

Lemma split_first_none line :
  Forall (λ b, is_delim b = false) line → split_first line = None.
Proof. induction 1 as [|x line Hx Hl IH]; simpl; [done|]. by rewrite Hx, IH. Qed.

Lemma drain_line fuel line (d : Byte.byte) :
  Forall (λ b, is_delim b = false) line → is_delim d = true →
  drain (S (S fuel)) (line ++ [d]) = ([line], []).
Proof.
  intros Hl Hd. rewrite drain_step, split_first_line by done. by rewrite drain_step.
Qed.

Lemma read_lines_acc cur stream :
  read_lines cur stream =
  match read_lines [] stream with
  | [] => match cur with [] => [] | _ => [rev cur] end
  | l :: ls => (rev cur ++ l) :: ls
  end.
Proof.
  revert cur. induction stream as [|b rest IH]; intros cur; simpl.
  - by destruct cur.
  - destruct (Byte.eqb b "010"); [done|].
    rewrite (IH (b :: cur)), (IH [b]).
    destruct (read_lines [] rest); simpl; [by destruct cur|].
    by rewrite <- app_assoc.
Qed.

Lemma read_lines_line cur line rest :
  Forall (λ b, b ≠ "010"%byte) line →
  read_lines cur (line ++ "010"%byte :: rest) =
  (rev cur ++ line ++ ["010"%byte]) :: read_lines [] rest.
Proof.
  intros Hl. revert cur. induction Hl as [|x line Hx Hl IH]; intros cur; simpl.
  - done.
  - destruct (Byte.eqb x "010") eqn:E; [by apply Byte.byte_dec_bl in E|].
    rewrite IH. simpl. by rewrite <- !app_assoc.
Qed.

End LineFacts.

Section LineTheorems.
Context `{PyLib}.

Lemma read_lines_prefix cur pre rest :
  Forall (λ b, b ≠ "010"%byte) pre →
  read_lines cur (pre ++ rest) = read_lines (rev pre ++ cur) rest.
Proof.
  intros Hp. revert cur. induction Hp as [|x pre Hx Hp IH]; intros cur; simpl; [done|].
  destruct (Byte.eqb x "010") eqn:E; [by apply Byte.byte_dec_bl in E|].
  rewrite IH. by rewrite <- app_assoc.
Qed.

Lemma sanitize_events_lines duration ff ff' :
  ff_elapsed ff = ff_elapsed ff' →
  sanitize_lines (ff_chunks ff) [] = sanitize_lines (ff_chunks ff') [] →
  sanitize_events duration ff = sanitize_events duration ff'.
Proof. unfold sanitize_events. by intros -> ->. Qed.

Lemma sanitize_lines_chunk chunk rest buffer :
  chunk ≠ [] →
  sanitize_lines (chunk :: rest) buffer =
  let '(ls, b) := drain (S (length (buffer ++ chunk))) (buffer ++ chunk) in
  ls ++ sanitize_lines rest b.
Proof. by destruct chunk. Qed.

(** C5, as the code has it. In the sanitize stage a carriage return
    ends a line as a newline does: a chunk that ends a line with either
    gives the same line, and replacing the one by the other anywhere in
    the output of ffmpeg leaves the events unchanged. In the acquisition
    stage only a newline ends a line: after a carriage return the line
    goes on with what follows. *)
Theorem carriage_return_lines (line : bytes) :
  Forall (λ b, is_delim b = false) line →
  (sanitize_lines [line ++ ["013"%byte]] [] = [line] ∧
   sanitize_lines [line ++ ["010"%byte]] [] = [line]) ∧
  (∀ duration chunks1 before after chunks2 returncode written elapsed,
     sanitize_events duration
       {| ff_chunks := chunks1 ++ [before ++ line ++ "013"%byte :: after] ++ chunks2;
          ff_returncode := returncode; ff_written := written;
          ff_elapsed := elapsed |} =
     sanitize_events duration
       {| ff_chunks := chunks1 ++ [before ++ line ++ "010"%byte :: after] ++ chunks2;
          ff_returncode := returncode; ff_written := written;
          ff_elapsed := elapsed |}) ∧
  (∀ rest,
     read_lines [] (line ++ "010"%byte :: rest) =
       (line ++ ["010"%byte]) :: read_lines [] rest ∧
     read_lines [] (line ++ "013"%byte :: rest) =
       match read_lines [] rest with
       | [] => [line ++ ["013"%byte]]
       | l :: ls => (line ++ "013"%byte :: l) :: ls
       end).
Proof.
  intros Hl. split; [|split].
  - assert (∀ d : Byte.byte, is_delim d = true →
              sanitize_lines [line ++ [d]] [] = [line]) as Hd.
    { intros d Hd. rewrite sanitize_lines_chunk by (by destruct line).
      rewrite app_nil_l, length_app, Nat.add_1_r.
      by rewrite drain_line. }
    split; by apply Hd.
  - intros. apply sanitize_events_lines; [done|]. simpl.
    apply sanitize_lines_same; [|constructor].
    apply Forall2_app; [reflexivity|].
    constructor; [|reflexivity].
    apply Forall2_app; [reflexivity|].
    apply Forall2_app; [reflexivity|].
    constructor; [by right|reflexivity].
  - assert (Forall (λ b : Byte.byte, b ≠ "010"%byte) line) as Hn.
    { eapply Forall_impl; [exact Hl|]. intros b Hb ->. done. }
    intros rest. split.
    + by rewrite read_lines_line.
    + change (line ++ "013"%byte :: rest) with (line ++ ["013"%byte] ++ rest).
      rewrite app_assoc, read_lines_prefix, read_lines_acc.
      * rewrite app_nil_r, rev_involutive.
        destruct (read_lines [] rest) as [|l ls].
        -- destruct (rev (line ++ ["013"%byte])) eqn:E; [|done].
           apply (f_equal (@length _)) in E.
           rewrite length_rev, length_app in E. simpl in E. lia.
        -- by rewrite <- app_assoc.
      * apply Forall_app. split; [done|]. by repeat constructor.
Qed.

End LineTheorems.

(** ** Matches that exist *)











(** ** Substitution *)




(** ** Paths *)

Lemma path_name_plain (s : text) :
  Forall (λ c, c ≠ chr "/") s → s ≠ [] → s ≠ [chr "."] → path_name s = s.
Proof.
  intros Hs Hne Hdot. unfold path_name, split.
  rewrite split_on_last by done. simpl. rewrite filter_cons.
  case_decide as Hp; [done|]. exfalso. apply Hp. unfold is_part.
  by rewrite !bool_decide_eq_false_2.
Qed.

Lemma rfind_from_notin c i best s :
  Forall (λ x, x ≠ c) s → rfind_from c i best s = best.
Proof.
  intros Hs. revert i. induction Hs as [|x s Hx Hs IH]; intros i; simpl; [done|].
  destruct (N.eqb_spec x c); [done|]. apply IH.
Qed.

Lemma rfind_from_app c i best a b :
  rfind_from c i best (a ++ b) =
  rfind_from c (i + Z.of_nat (length a)) (rfind_from c i best a) b.
Proof.
  revert i best. induction a as [|x a IH]; intros i best; simpl.
  - by rewrite Z.add_0_r.
  - rewrite IH. f_equal. lia.
Qed.

Lemma rfind_last c pre ext :
  Forall (λ x, x ≠ c) ext → rfind c (pre ++ c :: ext) = Z.of_nat (length pre).
Proof.
  intros He. unfold rfind. rewrite rfind_from_app. simpl.
  rewrite N.eqb_refl. by rewrite rfind_from_notin.
Qed.

Lemma path_stem_suffix (pre ext : text) :
  Forall (λ c, c ≠ chr "/") (pre ++ chr "." :: ext) →
  pre ≠ [] → ext ≠ [] → Forall (λ c, c ≠ chr ".") ext →
  path_stem (pre ++ chr "." :: ext) = pre.
Proof.
  intros Hs Hpre Hext Hdot. unfold path_stem. cbv zeta.
  rewrite path_name_plain; [|done|by destruct pre|by destruct pre as [|? [|]]].
  rewrite rfind_last by done. rewrite length_app. cbn [length].
  assert (0 < length pre)%nat by (destruct pre; simpl; [done|lia]).
  assert (0 < length ext)%nat by (destruct ext; simpl; [done|lia]).
  unfold char in *.
  match goal with
  | |- (if ?c then _ else _) = _ =>
      assert (c = true) as ->
        by (apply andb_true_intro; split; apply Z.ltb_lt; lia)
  end.
  rewrite Nat2Z.id. by rewrite take_app_length.
Qed.

Lemma split_on_sep sep cur a b :
  split_on sep cur (a ++ sep :: b) = split_on sep cur a ++ split_on sep [] b.
Proof.
  revert cur. induction a as [|c a IH]; intros cur; simpl.
  - by rewrite N.eqb_refl.
  - destruct (N.eqb c sep); [|apply IH]. by rewrite IH.
Qed.

Lemma path_name_join (dir name : text) :
  Forall (λ c, c ≠ chr "/") name → name ≠ [] → name ≠ [chr "."] →
  path_name (path_join dir name) = name.
Proof.
  intros Hs Hne Hdot. unfold path_name, path_join, split.
  rewrite split_on_sep, (split_on_last _ [] name) by done. simpl.
  rewrite filter_app, filter_cons. case_decide as Hp.
  - by rewrite filter_nil, last_snoc.
  - exfalso. apply Hp. unfold is_part. by rewrite !bool_decide_eq_false_2.
Qed.

Lemma path_stem_join (dir pre ext : text) :
  Forall (λ c, c ≠ chr "/") (pre ++ chr "." :: ext) →
  pre ≠ [] → ext ≠ [] → Forall (λ c, c ≠ chr ".") ext →
  path_stem (path_join dir (pre ++ chr "." :: ext)) = pre.
Proof.
  intros Hs Hpre Hext Hdot.
  rewrite <- (path_stem_suffix pre ext) at 2 by done.
  unfold path_stem. cbv zeta.
  rewrite path_name_join, path_name_plain;
    [done|done|by destruct pre|by destruct pre as [|? [|]]
    |done|by destruct pre|by destruct pre as [|? [|]]].
Qed.


(** ** Titles *)

Section TitleFacts.
Context `{PyLib}.








End TitleFacts.

Section TitleTheorem.
Context `{PyLib}.











End TitleTheorem.

(** ** The semaphore *)

Section SchedulerFacts.
Context `{PyLib}.
Variable runs : nat → job_run.

Lemma holding_app js1 js2 : holding (js1 ++ js2) = (holding js1 + holding js2)%nat.
Proof. unfold holding. by rewrite filter_app, length_app. Qed.

Lemma holding_insert js i a b :
  js !! i = Some a →
  (holding (<[i := b]> js) + (if holds_permit a then 1 else 0) =
   holding js + (if holds_permit b then 1 else 0))%nat.
Proof.
  revert i. induction js as [|x js IH]; intros [|i] Hi; simplify_eq/=.
  - unfold holding. rewrite !filter_cons.
    destruct (holds_permit a), (holds_permit b); repeat case_decide; simpl; try done; lia.
  - specialize (IH _ Hi). unfold holding in *. rewrite !filter_cons.
    case_decide; simpl; lia.
Qed.

Lemma history_app i tr l : history i (tr ++ l) = history i tr ++ history i l.
Proof. unfold history. by rewrite filter_app, fmap_app. Qed.

Lemma history_own i (l : list action) :
  history i ((λ a, (i, a)) <$> l) = l.
Proof.
  unfold history. induction l as [|a l IH]; [done|].
  rewrite fmap_cons, filter_cons. simpl. case_decide; [|done]. simpl. by f_equal.
Qed.

Lemma history_other i j (l : list action) :
  i ≠ j → history i ((λ a, (j, a)) <$> l) = [].
Proof.
  intros Hij. unfold history. induction l as [|a l IH]; [done|].
  rewrite fmap_cons, filter_cons. simpl. by case_decide.
Qed.

Lemma step_shape s l s' :
  step runs s l s' →
  (l = [] ∧ sem_value s' = sem_value s ∧ jobs s' = jobs s ++ [Queued]) ∨
  ∃ i a b acts,
    jobs s !! i = Some a ∧ jobs s' = <[i := b]> (jobs s) ∧
    l = (λ x, (i, x)) <$> acts ∧
    (sem_value s' + (if holds_permit b then 1 else 0) =
     sem_value s + (if holds_permit a then 1 else 0))%nat ∧
    ∀ h, history_of (Some a) h → history_of (Some b) (h ++ acts).
Proof.
  destruct 1 as [s|s i Hi Hv|s i raw Hi Hr|s i Hi Hr|s i Hi Hr|s i Hi Hr|s i st Hi Hh];
    [by left|right..].
  - exists i, Queued, Acquiring, before_download. simpl. repeat split; try done; try lia.
    by intros h ->.
  - exists i, Acquiring, Sanitizing, [Launch Ffprobe; Launch Ffmpeg]. simpl.
    repeat split; try done. by intros h ->.
  - exists i, Acquiring, Failed, [Release]. simpl. repeat split; try done; try lia.
    intros h ->. by left.
  - exists i, Sanitizing, Done, [Release]. simpl. repeat split; try done; try lia.
    by intros h ->.
  - exists i, Sanitizing, Failed, [Release]. simpl. repeat split; try done; try lia.
    intros h ->. by right.
  - exists i, st, Raised, [Release]. simpl. rewrite Hh. repeat split; try done; try lia.
    destruct st; try done; intros h ->; [by left|by right].
Qed.

Lemma reach_invariant tr s :
  reach runs tr s →
  (sem_value s + holding (jobs s) = MAX_CONCURRENT_TASKS)%nat ∧
  ∀ i, history_of (jobs s !! i) (history i tr).
Proof.
  induction 1 as [|tr s l s' Hr [IHv IHh] Hs]; [by split|].
  destruct (step_shape _ _ _ Hs) as [(-> & Hv & Hj)|(i & a & b & acts & Hi & Hj & -> & Hv & Hh)].
  - rewrite Hv, Hj, holding_app, app_nil_r. split; [unfold holding at 2; simpl; lia|].
    intros i. specialize (IHh i).
    destruct (decide (i < length (jobs s))%nat) as [Hlt|Hge].
    + by rewrite lookup_app_l.
    + rewrite lookup_ge_None_2 in IHh by lia. simpl in IHh.
      destruct ((jobs s ++ [Queued]) !! i) as [st|] eqn:E; [|done].
      apply lookup_app_Some in E as [E|[_ E]].
      * apply lookup_lt_Some in E. lia.
      * apply list_lookup_singleton_Some in E as [_ <-]. done.
  - rewrite Hj. pose proof (holding_insert _ _ _ b Hi) as Hc. split; [lia|].
    intros j. rewrite history_app. destruct (decide (j = i)) as [->|Hne].
    + rewrite list_lookup_insert_eq by (by eapply lookup_lt_Some).
      rewrite history_own. apply Hh. specialize (IHh i). by rewrite Hi in IHh.
    + rewrite list_lookup_insert_ne by done.
      rewrite history_other, app_nil_r by done. apply IHh.
Qed.

(** C1: in every state that a run reaches, at most 3 pipelines hold a
    permit, that is, are in the stages [Acquiring] or [Sanitizing]; the
    permits left and the permits held add up to 3; and the actions of
    each pipeline are: nothing while it waits, then one [Acquire] before
    yt-dlp is launched, ffprobe and ffmpeg launched after it, and one
    [Release] at the end, whether the acquisition fails, the
    sanitization fails, the job succeeds or an exception leaves the
    pipeline. *)
Theorem semaphore_bounds_pipelines (tr : list (nat * action)) (s : sched) :
  reach runs tr s →
  (holding (jobs s) ≤ 3)%nat ∧
  (sem_value s + holding (jobs s) = MAX_CONCURRENT_TASKS)%nat ∧
  ∀ i, history_of (jobs s !! i) (history i tr).
Proof.
  intros Hr. destruct (reach_invariant tr s Hr) as [Hv Hh].
  split; [|by split]. unfold MAX_CONCURRENT_TASKS in Hv. lia.
Qed.

End SchedulerFacts.

(** ** The runs of the examples *)

(** A run of four jobs: three are admitted, the fourth waits until the
    first has failed; the second runs to the end. *)
Lemma semaphore_bounds_pipelines_witness :
  ∃ tr s,
    reach runs_example tr s ∧
    jobs s = [Failed; Done; Acquiring; Acquiring] ∧ sem_value s = 1%nat ∧
    (holding (jobs s) ≤ 3)%nat ∧
    history 0 tr = [Acquire; Launch YtDlp; Release] ∧
    history 3 tr = [Acquire; Launch YtDlp].
Proof.
  pose proof (reach_initial runs_example) as R.
  do 4 (eapply reach_step in R; [|apply step_submit]). cbn in R.
  eapply reach_step in R;
    [|apply (step_acquire _ _ 0); [reflexivity|unfold MAX_CONCURRENT_TASKS; cbn; lia]]. cbn in R.
  eapply reach_step in R;
    [|apply (step_acquire _ _ 1); [reflexivity|unfold MAX_CONCURRENT_TASKS; cbn; lia]]. cbn in R.
  eapply reach_step in R;
    [|apply (step_acquire _ _ 2); [reflexivity|unfold MAX_CONCURRENT_TASKS; cbn; lia]]. cbn in R.
  eapply reach_step in R;
    [|apply (step_download_failed _ _ 0); [reflexivity|vm_compute; reflexivity]].
  cbn in R.
  eapply reach_step in R;
    [|apply (step_acquire _ _ 3); [reflexivity|unfold MAX_CONCURRENT_TASKS; cbn; lia]]. cbn in R.
  eapply reach_step in R;
    [|apply (step_download_ok _ _ 1 raw_example); [reflexivity|vm_compute; reflexivity]].
  cbn in R.
  eapply reach_step in R;
    [|apply (step_sanitize_ok _ _ 1); [reflexivity|vm_compute; reflexivity]].
  cbn in R.
  destruct (semaphore_bounds_pipelines runs_example _ _ R) as (Hle & Hsum & Hh).
  eexists _, _. split; [exact R|]. cbn.
  split; [reflexivity|]. split; [reflexivity|]. split; [exact Hle|].
  split; reflexivity.
Defined.

(** The job whose sanitization fails keeps its raw file and has no
    result. *)
Lemma raw_file_removed_iff_witness :
  (download (j_ytdlp (job_example yt_ok 1))).1 = Some raw_example ∧
  ∃ o, run_pipeline (str "u") (job_example yt_ok 1) ∅ = Some o ∧
       o_result o = None ∧ o_fs o !! raw_example = Some 1000.
Proof.
  assert ((download (j_ytdlp (job_example yt_ok 1))).1 = Some raw_example) as Hd
    by (vm_compute; reflexivity).
  split; [exact Hd|].
  destruct (raw_file_removed_iff (str "u") (job_example yt_ok 1) ∅ raw_example Hd)
    as (o & out & Hrun & _ & Hfail & _).
  exists o. split; [exact Hrun|].
  destruct Hfail as (Hres & _ & Hraw); [done|].
  split; [exact Hres|]. rewrite Hraw; [reflexivity|]. by eexists.
Defined.

(** The job whose sanitization succeeds has a result and no raw file
    left. *)
Example raw_file_removed_on_success :
  ∃ o, run_pipeline (str "u") (job_example yt_ok 0) ∅ = Some o ∧
       o_result o = Some (str "/app/safe_output/a_clean.mp4") ∧
       o_fs o !! raw_example = None ∧
       o_fs o !! str "/app/safe_output/a_clean.mp4" = Some 800.
Proof. eexists. split; [by vm_compute|]. by vm_compute. Qed.

(** A progress line ended by a carriage return and the same line ended
    by a newline. *)
Lemma carriage_return_lines_witness :
  Forall (λ b, is_delim b = false) ff_line ∧
  sanitize_lines [ff_line ++ ["013"%byte]] [] = [ff_line] ∧
  sanitize_lines [ff_line ++ ["010"%byte]] [] = [ff_line].
Proof.
  assert (Forall (λ b, is_delim b = false) ff_line) as Hl
    by (repeat constructor).
  split; [exact Hl|].
  exact (proj1 (carriage_return_lines ff_line Hl)).
Defined.

(** C5 fails for the acquisition stage: two progress lines of yt-dlp,
    the first ended by a carriage return only, are read as one line and
    give one event, made of the percent of the first and the rate and
    ETA of the second; with a newline they give two events. *)
Lemma carriage_return_counterexample :
  let line := bstr "[download]  10.0% of 1.00MiB at 1.00MiB/s ETA 00:01" in
  let rest := bstr "[download]  20.0% of 1.00MiB at 2.00MiB/s ETA 00:02" ++ ["010"%byte] in
  let events stream := (download {| p_output := stream; p_returncode := 0 |}).2 in
  events (line ++ "013"%byte :: rest) =
    [Event (Some (100 # 10)%Q) k_download (str "2.00MiB/s | ETA 00:02")] ∧
  events (line ++ "010"%byte :: rest) =
    [Event (Some (100 # 10)%Q) k_download (str "1.00MiB/s | ETA 00:01");
     Event (Some (200 # 10)%Q) k_download (str "2.00MiB/s | ETA 00:02")] ∧
  events (line ++ "013"%byte :: rest) ≠ events (line ++ "010"%byte :: rest).
Proof.
  intros line rest events.
  assert (events (line ++ "013"%byte :: rest) =
          [Event (Some (100 # 10)%Q) k_download (str "2.00MiB/s | ETA 00:02")]) as H1
    by (vm_compute; reflexivity).
  assert (events (line ++ "010"%byte :: rest) =
          [Event (Some (100 # 10)%Q) k_download (str "1.00MiB/s | ETA 00:01");
           Event (Some (200 # 10)%Q) k_download (str "2.00MiB/s | ETA 00:02")]) as H2
    by (vm_compute; reflexivity).
  split; [exact H1|]. split; [exact H2|]. rewrite H1, H2. discriminate.
Qed.

(** A probe that prints [N/A] fails, the duration is unknown and the
    stage reports nothing. *)
Lemma probe_failure_degrades_witness :
  probe_failed probe_na ∧
  get_duration probe_na = None ∧
  sanitize_events (get_duration probe_na) (ffmpeg_example 0) = [].
Proof.
  assert (probe_failed probe_na) as Hf by (vm_compute; reflexivity).
  split; [exact Hf|].
  destruct (probe_failure_degrades probe_na Hf) as (Hd & Hev & _).
  split; [exact Hd|apply Hev].
Defined.

(** C8 fails in its last part: with a failed probe, a line of ffmpeg
    that carries a timestamp gives no event at all, with or without a
    percent, while the same line gives one when the duration is known. *)
Lemma probe_failure_counterexample :
  let ff := ffmpeg_example 0 in
  probe_failed probe_na ∧
  sanitize_lines (ff_chunks ff) [] = [ff_line] ∧
  (∃ e, sanitize_events (Some 60%Q) ff = [e]) ∧
  ¬ (∃ e, e ∈ sanitize_events (get_duration probe_na) ff) ∧
  ∃ o, run_pipeline (str "u") (job_example yt_ok 0) ∅ = Some o ∧
       is_Some (o_result o) ∧
       Forall (λ e, ev_kind e ≠ k_sanitize) (o_events o).
Proof.
  intros ff. split; [by vm_compute|]. split; [by vm_compute|].
  split; [eexists; by vm_compute|]. split.
  - assert (sanitize_events (get_duration probe_na) ff = []) as ->
      by (vm_compute; reflexivity).
    intros [e He]. by apply elem_of_nil in He.
  - eexists. split; [by vm_compute|]. split; [by eexists|].
    repeat constructor; discriminate.
Qed.



(** * More properties *)

(** ** The lines of the two stages *)

Lemma read_lines_concat cur stream :
  concat (read_lines cur stream) = rev cur ++ stream.
Proof.
  revert cur. induction stream as [|b rest IH]; intros cur; simpl.
  - destruct cur; simpl; [done|]. by rewrite !app_nil_r.
  - destruct (Byte.eqb b "010").
    + simpl. rewrite IH. simpl. by rewrite <- app_assoc.
    + rewrite IH. simpl. by rewrite <- app_assoc.
Qed.

Lemma read_lines_shape cur stream :
  Forall (λ b, b ≠ LF_byte) cur →
  ∃ ls tail, read_lines cur stream = ls ++ tail ∧ Forall complete_line ls ∧
             (tail = [] ∨ ∃ l, tail = [l] ∧ partial_line l).
Proof.
  revert cur. induction stream as [|b rest IH]; intros cur Hcur; simpl.
  - exists []. destruct cur as [|c cur]; [exists []; by split_and!; [|constructor|left]|].
    exists [rev (c :: cur)]. split_and!; [done|constructor|].
    right. eexists. split; [done|]. split.
    + simpl. by destruct (rev cur).
    + by apply Forall_rev.
  - destruct (Byte.eqb b "010") eqn:E.
    + apply Byte.byte_dec_bl in E as ->.
      destruct (IH [] ltac:(constructor)) as (ls & tail & -> & Hls & Htail).
      exists (rev ("010"%byte :: cur) :: ls), tail. split_and!; [done| |done].
      constructor; [|done]. exists (rev cur). split; [done|]. by apply Forall_rev.
    + apply IH. constructor; [|done]. intros ->. by vm_compute in E.
Qed.

(** X1: the lines that the acquisition stage reads are the stream cut
    after each newline: put together they give the stream back, each
    ends with its only newline, but for the last one when the stream
    does not end with a newline. *)
Theorem read_lines_roundtrip (stream : bytes) :
  concat (read_lines [] stream) = stream ∧
  ∃ ls tail, read_lines [] stream = ls ++ tail ∧ Forall complete_line ls ∧
             (tail = [] ∨ ∃ l, tail = [l] ∧ partial_line l).
Proof.
  split; [apply read_lines_concat|]. apply read_lines_shape. constructor.
Qed.

Lemma split_first_app b c l r :
  split_first b = Some (l, r) → split_first (b ++ c) = Some (l, r ++ c).
Proof.
  revert l r. induction b as [|x b IH]; intros l r; simpl; [done|].
  destruct (is_delim x); [by intros [= <- <-]|].
  destruct (split_first b) as [[l' r']|]; simpl; [|done].
  intros [= <- <-]. by rewrite (IH l' r' eq_refl).
Qed.

Lemma split_first_clean b l r :
  split_first b = Some (l, r) → Forall (λ x, is_delim x = false) l.
Proof.
  revert l r. induction b as [|x b IH]; intros l r; simpl; [done|].
  destruct (is_delim x) eqn:Hx; [by intros [= <- <-]|].
  destruct (split_first b) as [[l' r']|]; simpl; [|done].
  intros [= <- <-]. constructor; [done|]. by eapply IH.
Qed.

Lemma split_first_None_clean b :
  split_first b = None → Forall (λ x, is_delim x = false) b.
Proof.
  induction b as [|x b IH]; simpl; [constructor|].
  destruct (is_delim x) eqn:Hx; [done|].
  destruct (split_first b) as [[l' r']|]; simpl; [done|].
  intros _. constructor; [done|]. by apply IH.
Qed.

(** More fuel than the buffer has bytes changes nothing. *)
Lemma drain_fuel fuel1 fuel2 b :
  (length b < fuel1)%nat → (length b < fuel2)%nat → drain fuel1 b = drain fuel2 b.
Proof.
  revert fuel2 b. induction fuel1 as [|fuel1 IH]; intros [|fuel2] b H1 H2; try lia.
  rewrite !drain_step. destruct (split_first b) as [[l r]|] eqn:E; [|done].
  apply split_first_length in E. by rewrite (IH fuel2 r) by lia.
Qed.

Lemma drained_step b :
  drained b =
  match split_first b with
  | None => ([], b)
  | Some (l, r) => let '(ls, b') := drained r in (l :: ls, b')
  end.
Proof.
  unfold drained. rewrite drain_step. destruct (split_first b) as [[l r]|] eqn:E; [|done].
  apply split_first_length in E. by rewrite (drain_fuel (length b) (S (length r))) by lia.
Qed.

Lemma drained_app b c :
  drained (b ++ c) =
  let '(ls, r) := drained b in
  let '(ls', r') := drained (r ++ c) in (ls ++ ls', r').
Proof.
  remember (length b) as n eqn:Hn. revert b Hn.
  induction n as [n IH] using lt_wf_ind. intros b ->.
  rewrite (drained_step b). destruct (split_first b) as [[l r]|] eqn:E.
  - rewrite (drained_step (b ++ c)), (split_first_app _ c _ _ E).
    pose proof (split_first_length _ _ _ E) as Hl.
    rewrite (IH (length r) Hl r eq_refl).
    destruct (drained r) as [ls r0]. by destruct (drained (r0 ++ c)).
  - by destruct (drained (b ++ c)).
Qed.

Lemma drained_clean b :
  Forall (λ x, is_delim x = false) b → drained b = ([], b).
Proof. intros Hb. by rewrite drained_step, split_first_none. Qed.

Lemma drained_rest_clean b : split_first (drained b).2 = None.
Proof. apply drain_complete. lia. Qed.

Lemma drained_lines_clean b :
  Forall (Forall (λ x, is_delim x = false)) (drained b).1.
Proof.
  remember (length b) as n eqn:Hn. revert b Hn.
  induction n as [n IH] using lt_wf_ind. intros b ->.
  rewrite drained_step. destruct (split_first b) as [[l r]|] eqn:E; [|constructor].
  pose proof (IH _ (split_first_length _ _ _ E) r eq_refl) as Hr.
  destruct (drained r). constructor; [by eapply split_first_clean|done].
Qed.

Lemma sanitize_lines_drained chunk rest buffer :
  chunk ≠ [] →
  sanitize_lines (chunk :: rest) buffer =
  (drained (buffer ++ chunk)).1 ++ sanitize_lines rest (drained (buffer ++ chunk)).2.
Proof.
  intros Hc. rewrite sanitize_lines_chunk by done. unfold drained.
  by destruct (drain _ _).
Qed.

(** The lines of the chunks are those of the chunks put together. *)
Lemma sanitize_lines_concat chunks buffer :
  Forall (λ c, c ≠ []) chunks → split_first buffer = None →
  sanitize_lines chunks buffer = (drained (buffer ++ concat chunks)).1.
Proof.
  intros Hc. revert buffer. induction Hc as [|c chunks Hne Hc IH]; intros buffer Hb.
  - simpl. rewrite app_nil_r, drained_clean; [done|by apply split_first_None_clean].
  - rewrite sanitize_lines_drained by done.
    rewrite IH by apply drained_rest_clean. simpl concat.
    rewrite (assoc_L (++)), (drained_app (buffer ++ c) (concat chunks)).
    destruct (drained (buffer ++ c)) as [ls r]. simpl. by destruct (drained _).
Qed.

(** X2: the lines of the sanitize stage do not depend on how the output
    of ffmpeg is cut into chunks: two sequences of reads, none of them
    empty, that carry the same bytes give the same lines and the same
    events. *)
Theorem sanitize_chunking (chunks1 chunks2 : list bytes) :
  Forall (λ c, c ≠ []) chunks1 → Forall (λ c, c ≠ []) chunks2 →
  concat chunks1 = concat chunks2 →
  sanitize_lines chunks1 [] = sanitize_lines chunks2 [] ∧
  ∀ `{PyLib} duration returncode written elapsed,
    sanitize_events duration
      {| ff_chunks := chunks1; ff_returncode := returncode;
         ff_written := written; ff_elapsed := elapsed |} =
    sanitize_events duration
      {| ff_chunks := chunks2; ff_returncode := returncode;
         ff_written := written; ff_elapsed := elapsed |}.
Proof.
  intros H1 H2 Hc.
  assert (sanitize_lines chunks1 [] = sanitize_lines chunks2 []) as Hl.
  { rewrite !sanitize_lines_concat by done. simpl. by rewrite Hc. }
  split; [done|]. intros. unfold sanitize_events. simpl. by rewrite Hl.
Qed.

Lemma sanitize_lines_stop chunks after buffer :
  Forall (λ c, c ≠ []) chunks →
  sanitize_lines (chunks ++ [] :: after) buffer = sanitize_lines chunks buffer.
Proof.
  intros Hc. revert buffer. induction Hc as [|c chunks Hne Hc IH]; intros buffer; [done|].
  simpl app. rewrite !sanitize_lines_drained by done. by rewrite IH.
Qed.

(** X3: no line of the sanitize stage holds a carriage return or a
    newline; what follows the last of them in the output is never
    handled as a line; and the first empty read ends the loop, whatever
    comes after it. *)
Theorem sanitize_lines_tail (chunks : list bytes) (tail : bytes) :
  Forall (λ c, c ≠ []) chunks → Forall (λ x, is_delim x = false) tail →
  Forall (Forall (λ x, is_delim x = false)) (sanitize_lines chunks []) ∧
  sanitize_lines (chunks ++ [tail]) [] = sanitize_lines chunks [] ∧
  ∀ after, sanitize_lines (chunks ++ [] :: after) [] = sanitize_lines chunks [].
Proof.
  intros Hc Ht. split; [|split].
  - rewrite sanitize_lines_concat by done. apply drained_lines_clean.
  - destruct tail as [|x tail]; [by apply sanitize_lines_stop|].
    rewrite !sanitize_lines_concat; [|done|done|by apply Forall_app; split; [|repeat constructor]|done].
    simpl. rewrite concat_app. simpl. rewrite app_nil_r, drained_app.
    pose proof (drained_rest_clean (concat chunks)) as Hr.
    destruct (drained (concat chunks)) as [ls r]. simpl in Hr.
    rewrite drained_clean.
    + simpl. by rewrite app_nil_r.
    + apply Forall_app. split; [by apply split_first_None_clean|done].
  - intros after. by apply sanitize_lines_stop.
Qed.


(** ** The events of the sanitize stage *)

Lemma Qlt_bool_iff x y : Qlt_bool x y = true ↔ (x < y)%Q.
Proof.
  unfold Qlt_bool. rewrite negb_true_iff. split.
  - intros Hb. apply Qnot_le_lt. intros Hle%Qle_bool_iff. congruence.
  - intros Hlt. destruct (Qle_bool y x) eqn:E; [|done].
    apply Qle_bool_iff in E. by apply Qle_not_lt in E.
Qed.

Section SanitizeEvents.
Context `{PyLib}.

Lemma sanitize_line_events duration elapsed t :
  Forall sanitize_event (sanitize_line duration elapsed t) ∧
  (length (sanitize_line duration elapsed t) ≤ 1)%nat.
Proof.
  unfold sanitize_line. destruct (re_search time_pattern t); [|by split; [constructor|simpl; lia]].
  destruct (known_duration duration); [|by split; [constructor|simpl; lia]].
  destruct (split _ _) as [|h [|m [|s [|? ?]]]]; try (by split; [constructor|simpl; lia]).
  split; [|simpl; lia]. constructor; [|constructor].
  split; [done|]. eexists. split; [done|]. apply min2_le.
Qed.

Lemma known_duration_zero d : (d == 0)%Q → known_duration (Some d) = None.
Proof. intros Hd. simpl. by rewrite (proj2 (Qeq_bool_iff d 0) Hd). Qed.

Lemma sanitize_line_not_known duration elapsed t :
  known_duration duration = None → sanitize_line duration elapsed t = [].
Proof. intros Hk. unfold sanitize_line. rewrite Hk. by destruct (re_search _ _). Qed.

Lemma concat_imap_props {A B} (f : nat → A → list B) (P : B → Prop) (l : list A) :
  (∀ i x, Forall P (f i x) ∧ (length (f i x) ≤ 1)%nat) →
  Forall P (concat (imap f l)) ∧ (length (concat (imap f l)) ≤ length l)%nat.
Proof.
  intros Hf. revert f Hf. induction l as [|x l IH]; intros f Hf; simpl.
  - split; [constructor|lia].
  - destruct (Hf 0%nat x) as [Hp Hl].
    destruct (IH (f ∘ S) (λ i y, Hf (S i) y)) as [Hp' Hl'].
    split; [by apply Forall_app|]. rewrite length_app. lia.
Qed.

Lemma concat_imap_nil {A B} (f : nat → A → list B) (l : list A) :
  (∀ i x, f i x = []) → concat (imap f l) = [].
Proof.
  intros Hf. revert f Hf. induction l as [|x l IH]; intros f Hf; simpl; [done|].
  rewrite Hf. simpl. apply IH. intros i y. apply Hf.
Qed.

(** X4: every event of the sanitize stage has the kind [sanitize] and a
    percent of 99.9 at most; a line gives one event at most; and a
    duration of zero gives no event, as an unknown one. *)
Theorem sanitize_events_bounded (duration : option Q) (ff : ffmpeg_run) :
  Forall sanitize_event (sanitize_events duration ff) ∧
  (length (sanitize_events duration ff) ≤
   length (sanitize_lines (ff_chunks ff) []))%nat ∧
  (∀ d, duration = Some d → (d == 0)%Q → sanitize_events duration ff = []).
Proof.
  split_and!.
  - apply concat_imap_props. intros i x. apply sanitize_line_events.
  - apply concat_imap_props with (P := sanitize_event).
    intros i x. apply sanitize_line_events.
  - intros d -> Hd. apply concat_imap_nil. intros i x.
    apply sanitize_line_not_known. by apply known_duration_zero.
Qed.

End SanitizeEvents.

(** ** The remaining time *)

Lemma int_of_float_floor x : (0 <= x)%Q → int_of_float x = Qfloor x.
Proof.
  intros Hx. unfold int_of_float. destruct x as [n d]. simpl.
  apply Z.quot_div_nonneg; [|lia]. unfold Qle in Hx. simpl in Hx. lia.
Qed.

Lemma fmt_02d_seconds n : (0 ≤ n < 60)%Z → length (fmt_02d n) = 2%nat.
Proof.
  intros Hn.
  assert (forallb (λ k, Nat.eqb (length (fmt_02d (Z.of_nat k))) 2) (seq 0 60) = true)
    as Hall by (vm_compute; reflexivity).
  rewrite forallb_forall in Hall. specialize (Hall (Z.to_nat n)).
  rewrite Z2Nat.id in Hall by lia. apply Nat.eqb_eq, Hall, in_seq. lia.
Qed.

(** X5: with time elapsed and a percent above zero and of 99.9 at most,
    the estimate of the remaining time is not negative and is shown as
    minutes, a colon and two digits of seconds below 60; without, it is
    shown as [--:--]. *)
Theorem eta_str_shape (elapsed pct : Q) :
  ((0 < elapsed)%Q → (0 < pct)%Q → (pct <= 999 # 10)%Q →
   ∃ r : Z,
     (0 ≤ r)%Z ∧
     (inject_Z r <= elapsed * (100 / pct) - elapsed < inject_Z (r + 1))%Q ∧
     eta_str_of elapsed pct =
       fmt_02d (r `div` 60) ++ chr ":" :: fmt_02d (r `mod` 60) ∧
     (0 ≤ r `mod` 60 < 60)%Z ∧ length (fmt_02d (r `mod` 60)) = 2%nat) ∧
  (¬ ((0 < elapsed)%Q ∧ (0 < pct)%Q) → eta_str_of elapsed pct = str "--:--").
Proof.
  split.
  - intros He Hp Hcap. unfold eta_str_of.
    rewrite (proj2 (Qlt_bool_iff 0 elapsed) He), (proj2 (Qlt_bool_iff 0 pct) Hp).
    simpl andb. cbv iota.
    set (remaining := (elapsed * (100 / pct) - elapsed)%Q).
    assert (0 < remaining)%Q as Hpos.
    { unfold remaining.
      assert (1 < 100 / pct)%Q as Hq.
      { apply Qlt_shift_div_l; [done|]. rewrite Qmult_1_l.
        eapply Qle_lt_trans; [exact Hcap|reflexivity]. }
      assert (elapsed * 1 < elapsed * (100 / pct))%Q as Hm
        by (by apply Qmult_lt_l).
      rewrite Qmult_1_r in Hm. unfold Qminus. rewrite <- (Qplus_opp_r elapsed).
      by apply Qplus_lt_l. }
    rewrite int_of_float_floor by (by apply Qlt_le_weak).
    exists (Qfloor remaining).
    assert (0 ≤ Qfloor remaining)%Z as Hr.
    { change 0%Z with (Qfloor 0). apply Qfloor_resp_le. by apply Qlt_le_weak. }
    pose proof (Z.mod_pos_bound (Qfloor remaining) 60 ltac:(lia)) as Hmod.
    split_and!; try done.
    + apply Qfloor_le.
    + apply Qlt_floor.
    + lia.
    + lia.
    + by apply fmt_02d_seconds.
  - intros Hn. unfold eta_str_of.
    destruct (Qlt_bool 0 elapsed) eqn:E1; [|done].
    destruct (Qlt_bool 0 pct) eqn:E2; [|done].
    apply Qlt_bool_iff in E1, E2. by destruct Hn.
Qed.


(** ** The summary of the sizes *)

Lemma div1024 (s : Q) : (s / 1024 == s * (1 # 1024))%Q.
Proof. field. Qed.

Lemma Qlt_bool_ge x y : Qlt_bool x y = false → (y <= x)%Q.
Proof.
  intros E. apply Qnot_lt_le. intros Hlt%Qlt_bool_iff. congruence.
Qed.

Ltac rank_compute :=
  match goal with
  | |- context [inject_Z ?z] =>
      let c := eval vm_compute in z in change (inject_Z z) with (c # 1)%Q
  end.

(** X6: [fmt] prints a size with the first of the units B, KB, MB, GB
    in which it is below 1024, and with TB when there is none: the
    number printed is the size divided by 1024 to the rank of the unit,
    it is below 1024 unless the unit is TB, and at least 1 unless the
    unit is B. *)
Theorem fmt_unit (s : Q) :
  ∃ v u,
    fmt_loop [unit_B; unit_KB; unit_MB; unit_GB] s = (v, u) ∧
    fmt s = format_fixed 2 v ++ unit_name u ∧
    (v * inject_Z (1024 ^ unit_rank u) == s)%Q ∧
    (u ≠ unit_TB → (v < 1024)%Q) ∧
    (u ≠ unit_B → (1 <= v)%Q).
Proof.
  unfold fmt. cbn [fmt_loop].
  destruct (Qlt_bool s 1024) eqn:E0.
  { apply Qlt_bool_iff in E0. eexists _, _. split_and!; try done.
    rank_compute. field. }
  apply Qlt_bool_ge in E0.
  destruct (Qlt_bool (s / 1024) 1024) eqn:E1.
  { apply Qlt_bool_iff in E1. eexists _, _. split_and!; try done.
    - rank_compute. field.
    - intros _. rewrite div1024 in *. lra. }
  apply Qlt_bool_ge in E1.
  destruct (Qlt_bool (s / 1024 / 1024) 1024) eqn:E2.
  { apply Qlt_bool_iff in E2. eexists _, _. split_and!; try done.
    - rank_compute. field.
    - intros _. rewrite !div1024 in *. lra. }
  apply Qlt_bool_ge in E2.
  destruct (Qlt_bool (s / 1024 / 1024 / 1024) 1024) eqn:E3.
  { apply Qlt_bool_iff in E3. eexists _, _. split_and!; try done.
    - rank_compute. field.
    - intros _. rewrite !div1024 in *. lra. }
  apply Qlt_bool_ge in E3.
  eexists _, _. split_and!; try done.
  - rank_compute. field.
  - intros _. rewrite !div1024 in *. lra.
Qed.

Section PipelineSummary.
Context `{PyLib}.

Lemma size_percent_bounds (raw_size diff : N) :
  0 < raw_size → diff ≤ raw_size →
  let percent := ((Z.of_N diff # 1) / (Z.of_N raw_size # 1) * 100)%Q in
  (0 <= percent <= 100)%Q ∧ (0 < diff → (0 < percent)%Q).
Proof.
  intros Hr Hd. destruct raw_size as [|r]; [lia|]. destruct diff as [|d].
  - simpl. split; [split; [done|done]|lia].
  - assert (Z.pos d ≤ Z.pos r)%Z by lia.
    unfold Qle, Qlt, Qdiv, Qmult, Qinv. simpl. split; [split|intros _]; nia.
Qed.

(** X7: with both files in place the summary is one entry. When the
    clean file is the smaller it says [Diet], with the bytes saved and a
    percent above 0 and of 100 at most; otherwise, equal sizes
    included, it says [Gain], with a percent of 0 when the raw file is
    empty. When one of the files is missing nothing is logged. *)
Theorem stats_log_entry (fs : fsys) (raw_file clean_file : text) :
  (∀ raw_size clean_size,
     fs !! raw_file = Some raw_size → fs !! clean_file = Some clean_size →
     (clean_size < raw_size →
      ∃ percent,
        stats_log fs raw_file clean_file =
          [LogDiet raw_size clean_size (Z.of_N (raw_size - clean_size)) percent] ∧
        (0 < percent <= 100)%Q) ∧
     (raw_size ≤ clean_size →
      ∃ percent,
        stats_log fs raw_file clean_file =
          [LogGain raw_size clean_size (Z.of_N (clean_size - raw_size)) percent] ∧
        (0 <= percent)%Q ∧ (raw_size = 0 → percent = 0%Q) ∧
        (raw_size = clean_size → (percent == 0)%Q))) ∧
  (fs !! raw_file = None ∨ fs !! clean_file = None →
   stats_log fs raw_file clean_file = []).
Proof.
  split.
  - intros rs cs Hr Hc. unfold stats_log. rewrite Hr, Hc. split.
    + intros Hlt.
      replace (Z.of_N rs - Z.of_N cs)%Z with (Z.of_N (rs - cs)) by lia.
      rewrite (proj2 (Z.ltb_lt 0 (Z.of_N (rs - cs)))) by lia.
      rewrite (proj2 (N.ltb_lt 0 rs)) by lia.
      rewrite Z.abs_eq by lia. eexists. split; [done|].
      destruct (size_percent_bounds rs (rs - cs)) as [[_ ?] Hp]; [lia|lia|].
      split; [apply Hp; lia|done].
    + intros Hle.
      replace (0 <? Z.of_N rs - Z.of_N cs)%Z with false
        by (symmetry; apply Z.ltb_ge; lia).
      replace (Z.abs (Z.of_N rs - Z.of_N cs)) with (Z.of_N (cs - rs)) by lia.
      destruct rs as [|r].
      * eexists. split; [done|]. simpl. by split_and!.
      * rewrite (proj2 (N.ltb_lt 0 (N.pos r))) by lia.
        eexists. split; [done|]. split_and!; [|done|].
        -- destruct (cs - N.pos r) as [|d]; [done|].
           unfold Qle, Qdiv, Qmult, Qinv. simpl. nia.
        -- intros <-. rewrite N.sub_diag. reflexivity.
  - unfold stats_log. intros [-> | Hc]; [done|].
    destruct (fs !! raw_file); [|done]. by rewrite Hc.
Qed.

End PipelineSummary.


(** ** The events and the log of a pipeline *)

Section PipelineTrace.
Context `{PyLib}.

Lemma progress_events_kind t :
  Forall (λ e, ev_kind e = k_download) (progress_events t).
Proof.
  unfold progress_events. repeat apply Forall_app_2.
  - destruct (contains _ t); by repeat constructor.
  - destruct (contains _ t); by repeat constructor.
  - destruct (re_search stats_pattern t); [by repeat constructor|].
    destruct (_ && _); [|constructor].
    destruct (re_search percent_pattern t); by repeat constructor.
Qed.




Lemma run_pipeline_sanitized url j fs raw_file :
  (download (j_ytdlp j)).1 = Some raw_file →
  ∃ out,
    let fs1 := j_downloaded j ∪ fs in
    let fs2 := ffmpeg_effect (j_ffmpeg j) out fs1 in
    let evs := (download (j_ytdlp j)).2 ++ PREP_EVENT ::
               sanitize_events (get_duration (j_probe j)) (j_ffmpeg j) in
    let started := [LogStartExtraction url; LogDLDone (path_name raw_file);
                    LogStartSanitization (path_name raw_file)] in
    run_pipeline url j fs =
    Some (if (ff_returncode (j_ffmpeg j) =? 0)%Z
          then {| o_result := Some out; o_events := evs;
                  o_log := started ++ stats_log fs2 raw_file out ++
                           [LogComplete (path_name out)];
                  o_fs := default fs2 (os_remove (j_locked j) raw_file fs2) |}
          else {| o_result := None; o_events := evs;
                  o_log := started ++ [LogSanitizationDied (path_name raw_file)];
                  o_fs := fs2 |}).
Proof.
  intros Hd.
  destruct (output_path_total (j_downloaded j ∪ fs) (path_stem raw_file))
    as [out Hout].
  exists out. simpl. unfold run_pipeline, sanitize.
  destruct (download (j_ytdlp j)) as [r evs]. simpl in Hd. subst r.
  rewrite Hout. simpl.
  destruct (ff_returncode (j_ffmpeg j) =? 0)%Z; simpl;
    rewrite <- ?app_assoc; reflexivity.
Qed.


(** ** The line of the merger *)

Lemma lit_segments s segs : Forall2 seg_ok (lit s) segs → concat segs = str s.
Proof.
  unfold lit. generalize (str s). intros l. revert segs.
  induction l as [|c l IH]; intros segs Hs.
  - by inversion Hs.
  - rewrite fmap_cons in Hs. inversion Hs as [|? seg ? segs' Hseg Hrest]; subst.
    simpl in Hseg. destruct Hseg as (x & -> & ->%N.eqb_eq).
    simpl. f_equal. by apply IH.
Qed.

Lemma contains_prefix needle s : needle `prefix_of` s → contains needle s = true.
Proof. intros Hp. destruct s; simpl; by rewrite bool_decide_eq_true_2. Qed.

Lemma contains_middle needle a b : contains needle (a ++ needle ++ b) = true.
Proof.
  induction a as [|x a IH].
  - apply contains_prefix. by exists b.
  - change ((x :: a) ++ needle ++ b) with (x :: (a ++ needle ++ b)).
    cbn [contains]. case_bool_decide; [done|]. exact IH.
Qed.

(** A text in which a pattern that begins with a literal is found
    contains the literal. *)
Lemma search_lit_contains s r t m :
  re_search (lit s ++ r) t = Some m → contains (str s) t = true.
Proof.
  intros (s2 & segs & -> & Hm & Hok & _)%re_search_Some.
  destruct (rmatch_sound _ _ _ Hm) as [_ (rest & -> & _)].
  apply Forall2_app_inv_l in Hok as (segs1 & segs2 & H1 & _ & ->).
  rewrite concat_app, (lit_segments _ _ H1), <- app_assoc.
  apply contains_middle.
Qed.

(** X9: a line in which the merger announces its file gives a title
    event, for the announced name, and with it the "Merging" status of
    the download, and makes the name the last file name. The name is the
    one between the quotes unless the line announces a file already
    downloaded as well. *)
Theorem merger_line_events (final_filename : option text) (t : text)
    (m : rmatch_obj) :
  re_search f_merge t = Some m →
  ∃ name evs,
    download_line final_filename t =
      (Some name, Event None k_title (clean_title name) :: evs) ∧
    Event None k_download MERGING_DETAIL ∈ evs ∧
    (re_search f_exist t = None → name = group 1 m).
Proof.
  intros Hm.
  assert (announced t) as Ha by (right; left; by eexists).
  pose proof (proj2 (detected_announced t) Ha) as Ht.
  destruct (detected_name t) as [name|] eqn:Hd; [|done].
  exists name, (progress_events t). split_and!.
  - unfold download_line. by rewrite Hd, Ht.
  - assert (contains (str "[Merger]") t = true) as Hc.
    { eapply (search_lit_contains "[Merger]"
                (lit " Merging formats into " ++
                 [Cls (is_char DQUOTE) One; GOpen; Cls any_char Plus; GClose;
                  Cls (is_char DQUOTE) One])).
      exact Hm. }
    unfold progress_events. rewrite Hc.
    apply elem_of_app. right. apply elem_of_app. left. by left.
  - intros He. unfold detected_name in Hd. rewrite He, Hm in Hd. by injection Hd as <-.
Qed.

End PipelineTrace.


(** ** The names of the output *)

Section OutputNames.
Context `{PyLib}.

Lemma safe_stem_of_safe (s : text) : Forall safe_char s → safe_stem_of s = s.
Proof.
  intros Hs. rewrite safe_stem_of_eq.
  induction Hs as [|c s [Hu Hp] Hs IH]; [done|].
  rewrite filter_cons. case_decide; [|done].
  rewrite fmap_cons. f_equal; [|exact IH].
  unfold replace_unsafe, is_unsafe. by rewrite bool_decide_eq_false_2.
Qed.

(** X10: the safe stem of a title is the title itself exactly when every
    character of the title is printable and outside [UNSAFE]; making a
    stem safe twice is making it safe once; and a safe stem is never
    longer than the title. *)
Theorem safe_stem_fixed (stem : text) :
  (safe_stem_of stem = stem ↔ Forall safe_char stem) ∧
  safe_stem_of (safe_stem_of stem) = safe_stem_of stem ∧
  (length (safe_stem_of stem) ≤ length stem)%nat.
Proof.
  split_and!.
  - split; [|apply safe_stem_of_safe].
    intros <-. apply safe_stem_safe.
  - apply safe_stem_of_safe, safe_stem_safe.
  - rewrite safe_stem_of_eq, length_fmap. apply length_filter.
Qed.

Lemma safe_not_slash (s : text) :
  Forall safe_char s → Forall (λ c, c ≠ chr "/") s.
Proof.
  intros Hs. eapply Forall_impl; [exact Hs|]. intros c [Hu _] ->. apply Hu.
  rewrite UNSAFE_items. change (chr "/") with 47. set_solver.
Qed.

Lemma output_path_shape (fs : fsys) (stem p : text) :
  output_path_for fs stem = Some p →
  ∃ counter, p = path_join SAFE_DIR
                   (clean_stem (safe_stem_of stem) counter ++ str ".mp4").
Proof.
  intros Hp. unfold output_path_for in Hp.
  pose proof (collision_loop_spec (S (size fs)) fs (safe_stem_of stem)
                (path_join SAFE_DIR (safe_stem_of stem ++ str "_clean.mp4")) 1) as Hs.
  rewrite Hp in Hs. destruct Hs as [_ [->|(_ & k & _ & -> & _)]].
  - exists None. unfold clean_stem. by rewrite <- app_assoc.
  - exists (Some k). unfold clean_stem, numbered. by rewrite <- !app_assoc.
Qed.

Lemma clean_stem_safe (s : text) counter :
  Forall safe_char s → Forall safe_char (clean_stem s counter).
Proof.
  intros Hs. unfold clean_stem. apply Forall_app. split; [done|].
  destruct counter as [k|]; [|by apply literal_safe].
  apply Forall_app. split; [by apply literal_safe|apply str_of_nat_safe].
Qed.

(** X11: the output path is a file of [SAFE_DIR] itself, whatever the
    title: its last component is the whole name built from the title,
    which holds no slash, and its stem and suffix are the clean stem and
    [.mp4]. *)
Theorem output_path_child (fs : fsys) (stem p : text) :
  output_path_for fs stem = Some p →
  ∃ counter,
    let name := clean_stem (safe_stem_of stem) counter ++ str ".mp4" in
    p = path_join SAFE_DIR name ∧
    Forall (λ c, c ≠ chr "/") name ∧
    path_name p = name ∧
    path_stem p = clean_stem (safe_stem_of stem) counter.
Proof.
  intros (counter & ->)%output_path_shape. exists counter. cbv zeta.
  set (cs := clean_stem (safe_stem_of stem) counter).
  assert (Forall safe_char cs) as Hcs by (apply clean_stem_safe, safe_stem_safe).
  assert (cs ≠ []) as Hne.
  { unfold cs, clean_stem. intros E%app_eq_nil. destruct E as [_ E].
    by destruct counter. }
  assert (Forall (λ c, c ≠ chr "/") (cs ++ str ".mp4")) as Hslash.
  { apply safe_not_slash, Forall_app. split; [done|by apply literal_safe]. }
  split_and!; [done|done|..].
  - apply path_name_join; [done|by destruct cs|].
    destruct cs as [|? [|? ?]]; done.
  - apply (path_stem_join SAFE_DIR cs (str "mp4")); [done|done|done|].
    repeat constructor; discriminate.
Qed.

End OutputNames.


(** ** The progress bar *)

Lemma count_char_app c a b :
  count_char c (a ++ b) = (count_char c a + count_char c b)%nat.
Proof. unfold count_char. by rewrite filter_app, length_app. Qed.

Lemma count_char_replicate c x n :
  count_char c (replicate n x) = if decide (x = c) then n else 0%nat.
Proof.
  unfold count_char. destruct (decide (x = c)) as [E|E].
  - induction n as [|n IH]; [done|]. cbn [replicate].
    rewrite filter_cons_True by done. cbn [length]. f_equal. exact IH.
  - induction n as [|n IH]; [done|]. cbn [replicate].
    rewrite filter_cons_False by done. exact IH.
Qed.

Lemma bar_color_plain mode c :
  c = FULL_BLOCK ∨ c = LIGHT_SHADE → count_char c (bar_color mode) = 0%nat.
Proof.
  intros [-> | ->]; unfold bar_color; repeat case_bool_decide; reflexivity.
Qed.

Lemma bar_counts (percent : Q) (mode : text) :
  count_char FULL_BLOCK (generate_bar_text percent mode) =
    Z.to_nat (bar_filled percent) ∧
  count_char LIGHT_SHADE (generate_bar_text percent mode) =
    Z.to_nat (BAR_WIDTH - bar_filled percent).
Proof.
  unfold generate_bar_text, str_times. cbv zeta.
  change (chr "[" :: bar_color mode ++ chr "]" :: ?l)
    with ([chr "["] ++ bar_color mode ++ [chr "]"] ++ l).
  rewrite !count_char_app, !count_char_replicate.
  rewrite (bar_color_plain mode FULL_BLOCK) by (by left).
  rewrite (bar_color_plain mode LIGHT_SHADE) by (by right).
  repeat match goal with
         | |- context [count_char ?c ?s] =>
             let v := eval vm_compute in (count_char c s) in
             change (count_char c s) with v
         end.
  split; repeat case_decide; try done; lia.
Qed.

Lemma Qfloor_eq (x : Q) (k : Z) :
  (inject_Z k <= x)%Q → (x < inject_Z (k + 1))%Q → Qfloor x = k.
Proof.
  intros Hlo Hhi.
  pose proof (Qfloor_le x) as Hle. pose proof (Qlt_floor x) as Hlt.
  assert (inject_Z k < inject_Z (Qfloor x + 1))%Q as H1
    by (eapply Qle_lt_trans; [exact Hlo|exact Hlt]).
  assert (inject_Z (Qfloor x) < inject_Z (k + 1))%Q as H2
    by (eapply Qle_lt_trans; [exact Hle|exact Hhi]).
  rewrite <- Zlt_Qlt in H1, H2. lia.
Qed.

Lemma Qfloor_ge (x : Q) (k : Z) : (k ≤ Qfloor x)%Z ↔ (inject_Z k <= x)%Q.
Proof.
  split.
  - intros Hk. eapply Qle_trans; [|apply Qfloor_le]. by rewrite <- Zle_Qle.
  - intros Hk. pose proof (Qlt_floor x) as Hlt.
    assert (inject_Z k < inject_Z (Qfloor x + 1))%Q as H1
      by (eapply Qle_lt_trans; [exact Hk|exact Hlt]).
    rewrite <- Zlt_Qlt in H1. lia.
Qed.

Lemma int_of_float_opp x : int_of_float (- x) = (- int_of_float x)%Z.
Proof. unfold int_of_float. destruct x as [n d]. simpl. apply Z.quot_opp_l. lia. Qed.

Lemma bar_scale (percent : Q) :
  (percent / 100 * inject_Z BAR_WIDTH == percent / 4)%Q.
Proof. unfold BAR_WIDTH. change (inject_Z 25) with 25%Q. field. Qed.

(** The cells that are filled, for a percent that is not negative and
    for a negative one. *)
Lemma bar_filled_nonneg (percent : Q) :
  (0 <= percent)%Q → bar_filled percent = Qfloor (percent / 4).
Proof.
  intros Hp. unfold bar_filled. rewrite int_of_float_floor.
  - apply Qfloor_comp, bar_scale.
  - rewrite bar_scale. apply Qle_shift_div_l; [done|]. by rewrite Qmult_0_l.
Qed.

Lemma bar_filled_neg (percent : Q) :
  (percent < 0)%Q → bar_filled percent = (- Qfloor (- percent / 4))%Z.
Proof.
  intros Hp. unfold bar_filled.
  set (x := (percent / 100 * inject_Z BAR_WIDTH)%Q).
  assert (- x == - percent / 4)%Q as Hx by (unfold x; rewrite bar_scale; field).
  pose proof (int_of_float_opp x) as Ho.
  rewrite int_of_float_floor in Ho.
  - rewrite (Qfloor_comp _ _ Hx) in Ho. lia.
  - rewrite Hx. apply Qle_shift_div_l; [done|]. rewrite Qmult_0_l. lra.
Qed.

Lemma quarter_ge (x : Q) (k : Z) :
  (inject_Z k <= x / 4)%Q ↔ (inject_Z (4 * k) <= x)%Q.
Proof.
  rewrite inject_Z_mult. change (inject_Z 4) with 4%Q.
  assert (x / 4 == x * (1 # 4))%Q as -> by field. split; intros; lra.
Qed.

Lemma quarter_lt (x : Q) (k : Z) :
  (x / 4 < inject_Z k)%Q ↔ (x < inject_Z (4 * k))%Q.
Proof.
  rewrite inject_Z_mult. change (inject_Z 4) with 4%Q.
  assert (x / 4 == x * (1 # 4))%Q as -> by field. split; intros; lra.
Qed.

Lemma Qfloor_lt (x : Q) (k : Z) : (Qfloor x < k)%Z ↔ (x < inject_Z k)%Q.
Proof.
  split.
  - intros Hk. apply Qnot_le_lt. intros Hle%Qfloor_ge. lia.
  - intros Hk. apply Z.nle_gt. intros Hle%Qfloor_ge. by apply Qle_not_lt in Hle.
Qed.

Lemma bar_filled_range (percent : Q) (lo hi : Z) :
  (0 ≤ lo)%Z →
  (inject_Z (4 * lo) <= percent)%Q → (percent < inject_Z (4 * (hi + 1)))%Q →
  (lo ≤ bar_filled percent ≤ hi)%Z.
Proof.
  intros Hlo Hp1 Hp2.
  assert (0 <= percent)%Q as H0.
  { eapply Qle_trans; [|exact Hp1]. change 0%Q with (inject_Z 0).
    rewrite <- Zle_Qle. lia. }
  rewrite bar_filled_nonneg by done. split.
  - by apply Qfloor_ge, quarter_ge.
  - apply Z.lt_succ_r, Qfloor_lt, quarter_lt. exact Hp2.
Qed.

(** X12: the bar has 25 cells, filled or empty, exactly for a percent
    above -4 and below 104, and more than 25 otherwise; for a percent
    from 0 to below 104 one cell is filled for every four whole percent,
    and all the 25 are from 100 on only. *)
Theorem bar_width (percent : Q) (mode : text) :
  let bar := generate_bar_text percent mode in
  let filled := count_char FULL_BLOCK bar in
  let empty := count_char LIGHT_SHADE bar in
  ((filled + empty = 25)%nat ↔ (-4 < percent)%Q ∧ (percent < 104)%Q) ∧
  (25 ≤ filled + empty)%nat ∧
  ((0 <= percent)%Q ∧ (percent < 104)%Q →
   Z.of_nat filled = Qfloor (percent / 4)) ∧
  (filled = 25%nat ↔ (100 <= percent)%Q ∧ (percent < 104)%Q).
Proof.
  cbv zeta. destruct (bar_counts percent mode) as [-> ->]. unfold BAR_WIDTH.
  destruct (Qlt_le_dec percent 0) as [Hneg|Hpos].
  - rewrite (bar_filled_neg percent Hneg).
    assert (0 <= - percent / 4)%Q as Hq.
    { apply Qle_shift_div_l; [done|]. rewrite Qmult_0_l. lra. }
    assert (0 ≤ Qfloor (- percent / 4))%Z as Hf
      by (apply Qfloor_ge; exact Hq).
    assert ((Qfloor (- percent / 4) < 1)%Z ↔ (-4 < percent)%Q) as Hone.
    { rewrite Qfloor_lt, quarter_lt. change (inject_Z (4 * 1)) with 4%Q.
      split; intros; lra. }
    split_and!.
    + split.
      * intros Hc. split; [apply Hone; lia|lra].
      * intros [Hc _]. apply Hone in Hc. lia.
    + lia.
    + intros [? _]. lra.
    + split; [lia|]. intros [? _]. lra.
  - rewrite (bar_filled_nonneg percent Hpos).
    assert (0 ≤ Qfloor (percent / 4))%Z as Hf.
    { apply Qfloor_ge, quarter_ge. exact Hpos. }
    assert ((Qfloor (percent / 4) < 26)%Z ↔ (percent < 104)%Q) as Htop
      by (rewrite Qfloor_lt, quarter_lt; reflexivity).
    assert ((25 ≤ Qfloor (percent / 4))%Z ↔ (100 <= percent)%Q) as Hfull
      by (rewrite Qfloor_ge, quarter_ge; reflexivity).
    split_and!.
    + split.
      * intros Hc. split; [lra|apply Htop; lia].
      * intros [_ Hc]. apply Htop in Hc. lia.
    + lia.
    + intros _. lia.
    + split.
      * intros Hc. split; [apply Hfull|apply Htop]; lia.
      * intros [H1 H2]. apply Hfull in H1. apply Htop in H2. lia.
Qed.

Section SanitizeBar.
Context `{PyLib}.

Lemma min2_bounds (x y : Q) : (0 <= x)%Q → (0 <= y)%Q → (0 <= min2 x y)%Q.
Proof. intros Hx Hy. unfold min2. by destruct (Qlt_bool y x). Qed.

Lemma sanitize_line_percent (d elapsed : Q) (t : text) :
  (0 < d)%Q →
  Forall (λ e, ∃ p, ev_percent e = Some p ∧ (0 <= p)%Q ∧ (p <= 999 # 10)%Q)
         (sanitize_line (Some d) elapsed t).
Proof.
  intros Hd. unfold sanitize_line. destruct (re_search time_pattern t); [|constructor].
  destruct (known_duration (Some d)) as [d'|] eqn:Hk; [|constructor].
  assert (d' = d) as ->.
  { simpl in Hk. destruct (Qeq_bool d 0); congruence. }
  destruct (split _ _) as [|h [|m [|s [|? ?]]]]; try constructor; [|constructor].
  eexists. split; [done|]. split; [|apply min2_le].
  apply min2_bounds; [|done].
  apply Qmult_le_0_compat; [|done].
  apply Qle_shift_div_l; [done|]. rewrite Qmult_0_l.
  unfold Qle. simpl. lia.
Qed.

(** X13: with a duration above zero, every event of the sanitize stage
    has a percent from 0 to 99.9, and the bar drawn for it has its 25
    cells, of which 24 at most are filled: the bar is full at the end of
    the task only. *)
Theorem sanitize_progress_bar (d : Q) (ff : ffmpeg_run) :
  (0 < d)%Q →
  Forall (λ e, ∃ p, ev_percent e = Some p ∧ (0 <= p)%Q ∧ (p <= 999 # 10)%Q ∧
               let bar := generate_bar_text p MODE_SANITIZE in
               (count_char FULL_BLOCK bar ≤ 24)%nat ∧
               (count_char FULL_BLOCK bar + count_char LIGHT_SHADE bar = 25)%nat)
         (sanitize_events (Some d) ff).
Proof.
  intros Hd. apply concat_imap_props. intros i line.
  split; [|apply sanitize_line_events].
  eapply Forall_impl; [by apply sanitize_line_percent|].
  intros e (p & Hp & H0 & Hcap). exists p. do 3 (split; [done|]). cbv zeta.
  destruct (bar_counts p MODE_SANITIZE) as [-> ->]. unfold BAR_WIDTH.
  destruct (bar_filled_range p 0 24) as [? ?];
    [lia|exact H0|change (inject_Z (4 * (24 + 1))) with 100%Q; lra|].
  lia.
Qed.

End SanitizeBar.

(** ** The cells of the row *)

Lemma round_half_even_up (x : Q) (k : Z) :
  Z.even k = false →
  (inject_Z k + (1 # 2) <= x)%Q → (x < inject_Z (k + 1))%Q →
  round_half_even x = (k + 1)%Z.
Proof.
  intros Hk Hlo Hhi. unfold round_half_even.
  rewrite (Qfloor_eq x k); [|lra|done]. rewrite Hk.
  destruct (Qcompare_spec (x - inject_Z k) (1 # 2)) as [?|Hlt|?]; [done| |done].
  lra.
Qed.

(** X14: a percent of the sanitize stage from 99.5 to the cap of 99.9 is
    shown as [100%] in the status, while 24 of the 25 cells of the bar
    are filled. *)
Theorem sanitize_cap_status (r : row) (p : Q) (detail : text) :
  (995 # 10 <= p)%Q → (p <= 999 # 10)%Q →
  let r' := (cb (MODE_SANITIZE, r) (Event (Some p) k_sanitize detail)).2 in
  r_status r' = str "100% (" ++ detail ++ str ")" ∧
  count_char FULL_BLOCK (r_progress r') = 24%nat.
Proof.
  intros Hlo Hhi. cbv zeta. unfold cb. cbn [ev_kind ev_detail ev_percent from_option id].
  rewrite bool_decide_eq_true_2 by done. cbn [snd r_status r_progress].
  split.
  - unfold format_fixed.
    assert (Qlt_bool p 0 = false) as ->.
    { destruct (Qlt_bool p 0) eqn:E; [|done]. apply Qlt_bool_iff in E. lra. }
    rewrite (round_half_even_up _ 99); [done|done| |].
    + change (inject_Z (10 ^ Z.of_nat 0)) with 1%Q.
      change (inject_Z 99) with 99%Q. lra.
    + change (inject_Z (10 ^ Z.of_nat 0)) with 1%Q.
      change (inject_Z (99 + 1)) with 100%Q. lra.
  - destruct (bar_counts p MODE_SANITIZE) as [-> _].
    destruct (bar_filled_range p 24 24) as [? ?]; [lia| | |lia].
    + change (inject_Z (4 * 24)) with 96%Q. lra.
    + change (inject_Z (4 * (24 + 1))) with 100%Q. lra.
Qed.


(** ** The callback of a task *)

Lemma cb_mode st e : (cb st e).1 = if is_done e then MODE_SANITIZE else st.1.
Proof.
  destruct st as [m r]. unfold cb, is_done.
  destruct (ev_kind e); simpl; try done; by case_bool_decide.
Qed.

Lemma cb_title st e :
  r_title (cb st e).2 =
  match ev_kind e with
  | k_title => short_title (ev_detail e)
  | _ => r_title st.2
  end.
Proof.
  destruct st as [m r]. unfold cb.
  destruct (ev_kind e); simpl; try done; by case_bool_decide.
Qed.

Lemma foldl_snoc {A B} (f : A → B → A) (a : A) (l : list B) (x : B) :
  foldl f a (l ++ [x]) = f (foldl f a l) x.
Proof. by rewrite foldl_app. Qed.

Lemma fold_title st evs :
  r_title (foldl cb st evs).2 =
  from_option short_title (r_title st.2) (last (titles evs)).
Proof.
  induction evs as [|e evs IH] using rev_ind; [done|].
  rewrite foldl_snoc, cb_title. unfold titles. rewrite omap_app. simpl.
  destruct (ev_kind e); simpl; rewrite ?app_nil_r; try exact IH.
  by rewrite last_snoc.
Qed.

Lemma short_title_length d : (length (short_title d) ≤ 35)%nat.
Proof.
  unfold short_title. destruct (Nat.ltb_spec (length d) 35) as [Hd|Hd]; [lia|].
  rewrite length_app, length_take. change (length (str "...")) with 3%nat. lia.
Qed.

(** X15: the mode of a task changes at a [download_done] event only,
    to [mode-sanitize], and never back; once there, the events of the
    download change nothing more in the row, as the events of the
    sanitize stage change nothing before. *)
Theorem cb_phases (mode : text) (r : row) (evs : list event) :
  (foldl cb (mode, r) evs).1 =
    (if existsb is_done evs then MODE_SANITIZE else mode) ∧
  (Forall (λ e, ev_kind e = k_download) evs →
   foldl cb (MODE_SANITIZE, r) evs = (MODE_SANITIZE, r)) ∧
  (Forall (λ e, ev_kind e = k_sanitize) evs →
   foldl cb (MODE_DL, r) evs = (MODE_DL, r)).
Proof.
  split_and!.
  - induction evs as [|e evs IH] using rev_ind; [done|].
    rewrite foldl_snoc, cb_mode, IH, existsb_app. simpl.
    rewrite orb_false_r. destruct (is_done e); [by rewrite orb_true_r|].
    by rewrite orb_false_r.
  - induction 1 as [|e evs He _ IH]; [done|].
    cbn [foldl].
    assert (cb (MODE_SANITIZE, r) e = (MODE_SANITIZE, r)) as ->; [|exact IH].
    unfold cb. rewrite He. reflexivity.
  - induction 1 as [|e evs He _ IH]; [done|].
    cbn [foldl].
    assert (cb (MODE_DL, r) e = (MODE_DL, r)) as ->; [|exact IH].
    unfold cb. rewrite He. reflexivity.
Qed.

(** ** The row of a task at its end *)

Section TaskRow.
Context `{PyLib}.

Lemma titles_app a b : titles (a ++ b) = titles a ++ titles b.
Proof. apply omap_app. Qed.

Lemma titles_none (P : event → Prop) evs :
  (∀ e, P e → ev_kind e ≠ k_title) → Forall P evs → titles evs = [].
Proof.
  intros HP. induction 1 as [|e evs He _ IH]; [done|].
  unfold titles. simpl. specialize (HP e He).
  destruct (ev_kind e); [done|exact IH..].
Qed.

Lemma progress_titles t : titles (progress_events t) = [].
Proof.
  apply (titles_none (λ e, ev_kind e = k_download)); [|apply progress_events_kind].
  by intros e ->.
Qed.

Lemma download_loop_titles lines :
  last (titles (download_loop lines).2) = clean_title <$> (download_loop lines).1.
Proof.
  induction lines as [|line lines IH] using rev_ind; [done|].
  rewrite download_loop_snoc. destruct (download_loop lines) as [ff evs].
  cbn [fst snd] in IH. set (t := strip (decode_replace line)).
  unfold download_line. destruct (truthy (detected_name t)) eqn:Ht; cbn [fst snd].
  - change (Event None k_title ?d :: ?l) with ([Event None k_title d] ++ l).
    rewrite !titles_app, progress_titles, app_nil_r.
    change (titles [Event None k_title ?d]) with [d]. rewrite last_snoc.
    by destruct (detected_name t).
  - by rewrite titles_app, progress_titles, app_nil_r.
Qed.

Lemma download_events_loop yt :
  (download yt).2 = (download_loop (read_lines [] (p_output yt))).2.
Proof. unfold download. by destruct (download_loop _). Qed.

Lemma pipeline_outcome url j fs o :
  run_pipeline url j fs = Some o →
  let name := (download_loop (read_lines [] (p_output (j_ytdlp j)))).1 in
  last (titles (o_events o)) = clean_title <$> name ∧
  (is_Some (o_result o) ↔
   p_returncode (j_ytdlp j) = 0%Z ∧ is_Some name ∧
   ff_returncode (j_ffmpeg j) = 0%Z).
Proof.
  intros Hrun name.
  pose proof (download_result (j_ytdlp j)) as Hres.
  pose proof (download_loop_titles (read_lines [] (p_output (j_ytdlp j)))) as Ht.
  rewrite <- download_events_loop in Ht. fold name in Hres, Ht.
  destruct (download (j_ytdlp j)).1 as [raw_file|] eqn:Hd.
  - destruct (run_pipeline_sanitized url j fs raw_file Hd) as (out & Hr).
    cbv zeta in Hr. rewrite Hr in Hrun. injection Hrun as <-.
    assert (titles (PREP_EVENT ::
              sanitize_events (get_duration (j_probe j)) (j_ffmpeg j)) = []) as Hrest.
    { apply (titles_none (λ e, ev_kind e = k_download_done ∨ ev_kind e = k_sanitize)).
      - by intros e [-> | ->].
      - constructor; [by left|].
        eapply Forall_impl;
          [apply concat_imap_props; intros i x; apply sanitize_line_events|].
        intros e [He _]. by right. }
    destruct (Z.eqb_spec (p_returncode (j_ytdlp j)) 0) as [Hrc|Hrc]; [|done].
    destruct (Z.eqb_spec (ff_returncode (j_ffmpeg j)) 0) as [Hff|Hff];
      cbn [o_events o_result]; rewrite titles_app, Hrest, app_nil_r.
    + split; [done|]. split; [intros _|by eexists].
      split_and!; [done| |done]. rewrite <- Hres. by eexists.
    + split; [done|]. split; [by intros [? [=]]|by intros (_ & _ & ?)].
  - rewrite (run_pipeline_not_acquired url j fs Hd) in Hrun.
    injection Hrun as <-. cbn [o_events o_result]. split; [done|].
    split; [by intros [? [=]]|]. intros (Hrc & [nm Hn] & _).
    rewrite Hrc, Hn in Hres. done.
Qed.

Lemma process_task_inv url task_id j fs tbl n tbl' n' fs' :
  process_task url task_id j fs tbl n = Some (tbl', n', fs') →
  n' = decrement_active n ∧ tbl'.*1 = tbl.*1.
Proof.
  unfold process_task. destruct (run_pipeline url j fs) as [o|]; [|done].
  simpl. intros [= <- <- _]. split; [done|].
  unfold update_cells. rewrite <- list_fmap_compose.
  apply list_fmap_ext. intros i kr _. simpl. by case_bool_decide.
Qed.

(** X16: when the task of a URL ends the counter is one less, but not
    below zero, and the table has the same keys; the rows of the other
    keys are as they were. In the row of the task the title is the
    shortened title of the last file name that a line of yt-dlp
    announced, of 35 characters at most, or the one it had when none
    was; the status is [Done], with the full bar, exactly when yt-dlp
    exits with zero after announcing a name and ffmpeg exits with zero,
    and [Error] otherwise. *)
Theorem process_task_row (url task_id : text) (j : job_run) (fs : fsys)
    (tbl : data_table) (n : Z) (tbl' : data_table) (n' : Z) (fs' : fsys) :
  process_task url task_id j fs tbl n = Some (tbl', n', fs') →
  let name := (download_loop (read_lines [] (p_output (j_ytdlp j)))).1 in
  let succeeded :=
    p_returncode (j_ytdlp j) = 0%Z ∧ is_Some name ∧
    ff_returncode (j_ffmpeg j) = 0%Z in
  n' = Z.max 0 (n - 1) ∧
  Forall2 (λ kr kr',
             kr'.1 = kr.1 ∧
             if bool_decide (kr.1 = task_id) then
               r_title kr'.2 =
                 from_option (λ nm, short_title (clean_title nm))
                             (r_title kr.2) name ∧
               (is_Some name → (length (r_title kr'.2) ≤ 35)%nat) ∧
               (succeeded →
                r_status kr'.2 = str "Done" ∧
                r_progress kr'.2 = generate_bar_text 100 MODE_COMPLETED) ∧
               (¬ succeeded → r_status kr'.2 = str "Error")
             else kr'.2 = kr.2)
          tbl tbl'.
Proof.
  intros Hp name succeeded.
  split.
  { apply process_task_inv in Hp as [-> _]. unfold decrement_active.
    destruct (Z.ltb_spec (n - 1) 0); lia. }
  unfold process_task in Hp.
  destruct (run_pipeline url j fs) as [o|] eqn:Hrun; [|done].
  simpl in Hp. injection Hp as <- _ _.
  destruct (pipeline_outcome url j fs o Hrun) as [Ht Hres].
  fold name in Ht, Hres. fold succeeded in Hres.
  unfold update_cells. apply Forall2_fmap_r, Forall_Forall2_diag, Forall_forall.
  intros [k r] _. unfold compose. cbn beta iota. cbn [fst snd].
  destruct (decide (k = task_id)) as [Hk|Hk];
    [rewrite !bool_decide_eq_true_2 by done
    |by rewrite !bool_decide_eq_false_2 by done].
  cbn [fst snd]. split; [done|].
  assert (r_title (final_row (o_result o) (foldl cb (MODE_DL, r) (o_events o)).2) =
          from_option (λ nm, short_title (clean_title nm)) (r_title r) name) as Htitle.
  { transitivity (r_title (foldl cb (MODE_DL, r) (o_events o)).2).
    - by destruct (o_result o).
    - rewrite fold_title, Ht. by destruct name. }
  split_and!.
  - exact Htitle.
  - intros [nm Hn]. rewrite Htitle, Hn. apply short_title_length.
  - intros [clean ->]%Hres. done.
  - intros Hn. destruct (o_result o) as [clean|] eqn:Ho; [|done].
    destruct Hn. apply Hres. by eexists.
Qed.

(** ** The counter of the active tasks *)

Lemma app_invariant a :
  app_reach a →
  active_tasks a = Z.of_nat (length (workers a)) ∧
  NoDup (table a).*1 ∧
  Forall (λ w, w.2 ∈ (table a).*1) (workers a).
Proof.
  induction 1 as [|a a' _ (Hn & Hnd & Hw) Hs].
  { split_and!; [done|constructor|constructor]. }
  destruct Hs as [value task_id a Hfresh|i url task_id j fs a tbl' n fs' Hi Hp].
  - unfold on_input_submitted. cbv zeta. case_bool_decide; [done|].
    cbn [active_tasks table workers]. rewrite length_app, fmap_app. simpl.
    split_and!.
    + lia.
    + apply NoDup_app. split_and!; [done| |apply NoDup_singleton].
      intros k Hk ->%list_elem_of_singleton. done.
    + apply Forall_app. split.
      * eapply Forall_impl; [exact Hw|]. intros w Hin. apply elem_of_app. by left.
      * constructor; [|constructor]. apply elem_of_app. right. by left.
  - apply process_task_inv in Hp as [-> Hkeys].
    cbn [active_tasks table workers]. rewrite Hkeys.
    assert (i < length (workers a))%nat by (by eapply lookup_lt_Some).
    split_and!; [|done|by apply Forall_delete].
    rewrite length_delete by (by eexists). unfold decrement_active. rewrite Hn.
    destruct (Z.ltb_spec (Z.of_nat (length (workers a)) - 1) 0); lia.
Qed.

(** X17: in every state that the application reaches the counter is the
    number of workers that run a task, every worker has its row in the
    table, under a key of its own, and the end of a task takes one from
    the counter: the clamp at zero never applies. *)
Theorem active_tasks_counts_workers (a : StationApp) :
  app_reach a →
  active_tasks a = Z.of_nat (length (workers a)) ∧
  NoDup (table a).*1 ∧
  Forall (λ w, w.2 ∈ (table a).*1) (workers a) ∧
  ∀ i url task_id j fs tbl' n fs',
    workers a !! i = Some (url, task_id) →
    process_task url task_id j fs (table a) (active_tasks a) = Some (tbl', n, fs') →
    n = (active_tasks a - 1)%Z ∧ (0 ≤ n)%Z.
Proof.
  intros (Hn & Hnd & Hw)%app_invariant. split_and!; try done.
  intros i url task_id j fs tbl' n fs' Hi [-> _]%process_task_inv.
  assert (i < length (workers a))%nat by (by eapply lookup_lt_Some).
  unfold decrement_active. destruct (Z.ltb_spec (active_tasks a - 1) 0); lia.
Qed.

(** X18: in every state that the application reaches, quitting exits at
    once when no task runs, and otherwise exits exactly when the button
    [quit] of the confirmation is the one pressed. *)
Theorem quit_confirmation (a : StationApp) (button_id : text) :
  app_reach a →
  (action_quit a button_id = true ↔ workers a = [] ∨ button_id = str "quit").
Proof.
  intros (Hn & _)%app_invariant. unfold action_quit, on_button_pressed. rewrite Hn.
  destruct (workers a) as [|w ws]; simpl.
  - split; [by left|done].
  - rewrite bool_decide_eq_true. split; [by right|by intros [|]].
Qed.

Lemma lstrip_nil s : lstrip s = [] ↔ Forall (λ c, isspace c = true) s.
Proof.
  induction s as [|c s IH]; simpl; [by split|].
  destruct (isspace c) eqn:Hc.
  - rewrite IH. split; [by constructor|by inversion 1].
  - split; [done|]. intros Hs. inversion Hs. congruence.
Qed.

Lemma lstrip_spaces s :
  Forall (λ c, isspace c = true) (lstrip s) → Forall (λ c, isspace c = true) s.
Proof.
  induction s as [|c s IH]; simpl; [done|].
  destruct (isspace c) eqn:Hc; [|done]. intros Hs. constructor; [done|by apply IH].
Qed.

Lemma strip_nil s : strip s = [] ↔ Forall (λ c, isspace c = true) s.
Proof.
  unfold strip, rstrip. split.
  - intros E. apply (f_equal (@rev char)) in E. rewrite rev_involutive in E.
    simpl in E. apply lstrip_nil, List.Forall_rev in E.
    rewrite rev_involutive in E. by apply lstrip_spaces.
  - intros Hs%lstrip_nil. rewrite Hs. simpl. done.
Qed.

(** X19: a submission changes nothing exactly when its text is made of
    white space only, the empty text included. *)
Theorem blank_submission (value task_id : text) (a : StationApp) :
  on_input_submitted value task_id a = a ↔
  Forall (λ c, isspace c = true) value.
Proof.
  rewrite <- strip_nil. unfold on_input_submitted. cbv zeta.
  case_bool_decide as Hs; [done|]. split; [|done].
  intros E. apply (f_equal active_tasks) in E. simpl in E. lia.
Qed.

End TaskRow.

(** ** The runs of the further examples *)

(** One progress line of ffmpeg read in one chunk, and in two. *)
Lemma sanitize_chunking_witness :
  sanitize_lines [ff_line; ["013"%byte]] [] =
  sanitize_lines [ff_line ++ ["013"%byte]] [].
Proof.
  apply (sanitize_chunking [ff_line; ["013"%byte]] [ff_line ++ ["013"%byte]]).
  - repeat constructor; discriminate.
  - repeat constructor; discriminate.
  - reflexivity.
Defined.

(** The start of a second progress line, not ended yet, gives no line. *)
Lemma sanitize_lines_tail_witness :
  sanitize_lines ([ff_line ++ ["013"%byte]] ++ [bstr "frame=200"]) [] =
  sanitize_lines [ff_line ++ ["013"%byte]] [].
Proof.
  assert (Forall (λ c : bytes, c ≠ []) [ff_line ++ ["013"%byte]]) as Hc
    by (repeat constructor; discriminate).
  assert (Forall (λ x, is_delim x = false) (bstr "frame=200")) as Ht
    by (repeat constructor).
  exact (proj1 (proj2 (sanitize_lines_tail _ _ Hc Ht))).
Defined.


(** The line of the merger gives the title [a] and the status of the
    merge. *)
Lemma merger_line_events_witness :
  ∃ name evs,
    download_line None merger_line =
      (Some name, Event None k_title (clean_title name) :: evs) ∧
    Event None k_download MERGING_DETAIL ∈ evs ∧
    (re_search f_exist merger_line = None → name = raw_example).
Proof.
  destruct (re_search f_merge merger_line) as [m|] eqn:Hm;
    [|vm_compute in Hm; discriminate Hm].
  destruct (merger_line_events None merger_line m Hm) as (name & evs & Hl & He & Hn).
  exists name, evs. split; [exact Hl|]. split; [exact He|].
  intros Hx. rewrite (Hn Hx).
  vm_compute in Hm. injection Hm as <-. reflexivity.
Defined.

(** A title that looks like a path out of the directory. *)
Lemma output_path_child_witness :
  let stem := str "../../etc/passwd" in
  let p := str "/app/safe_output/.._.._etc_passwd_clean.mp4" in
  output_path_for ∅ stem = Some p ∧
  ∃ counter,
    let name := clean_stem (safe_stem_of stem) counter ++ str ".mp4" in
    p = path_join SAFE_DIR name ∧
    Forall (λ c, c ≠ chr "/") name ∧
    path_name p = name ∧
    path_stem p = clean_stem (safe_stem_of stem) counter.
Proof.
  intros stem p.
  assert (output_path_for ∅ stem = Some p) as Hp by (vm_compute; reflexivity).
  split; [exact Hp|]. exact (output_path_child ∅ stem p Hp).
Defined.

(** The progress line of the example, for a duration of one minute. *)
Lemma sanitize_progress_bar_witness :
  (0 < 60)%Q ∧
  Forall (λ e, ∃ p, ev_percent e = Some p ∧ (0 <= p)%Q ∧ (p <= 999 # 10)%Q ∧
               let bar := generate_bar_text p MODE_SANITIZE in
               (count_char FULL_BLOCK bar ≤ 24)%nat ∧
               (count_char FULL_BLOCK bar + count_char LIGHT_SHADE bar = 25)%nat)
         (sanitize_events (Some 60%Q) (ffmpeg_example 0)).
Proof.
  assert (0 < 60)%Q as Hd by reflexivity.
  split; [exact Hd|]. exact (sanitize_progress_bar 60 (ffmpeg_example 0) Hd).
Defined.

(** The percent of the cap. *)
Lemma sanitize_cap_status_witness :
  let r' := (cb (MODE_SANITIZE, initial_row (str "u"))
                (Event (Some (999 # 10)%Q) k_sanitize (str "00:59"))).2 in
  r_status r' = str "100% (00:59)" ∧
  count_char FULL_BLOCK (r_progress r') = 24%nat.
Proof.
  apply (sanitize_cap_status (initial_row (str "u")) (999 # 10) (str "00:59")).
  - unfold Qle. simpl. lia.
  - unfold Qle. simpl. lia.
Defined.

(** The task of the example that succeeds, alone in the table. *)
Lemma process_task_row_witness :
  ∃ tbl' n' fs',
    process_task (str "u") (str "task_1.5") (job_example yt_ok 0) ∅
      [(str "task_1.5", initial_row (str "u"))] 1 = Some (tbl', n', fs') ∧
    n' = 0%Z.
Proof.
  destruct (process_task (str "u") (str "task_1.5") (job_example yt_ok 0) ∅
              [(str "task_1.5", initial_row (str "u"))] 1)
    as [[[tbl' n'] fs']|] eqn:Hp; [|vm_compute in Hp; discriminate Hp].
  exists tbl', n', fs'. split; [reflexivity|].
  exact (proj1 (process_task_row _ _ _ _ _ _ _ _ _ Hp)).
Defined.

(** One submission: one worker, and a counter of one. *)
Lemma active_tasks_counts_workers_witness :
  app_reach app_example ∧
  active_tasks app_example = Z.of_nat (length (workers app_example)).
Proof.
  assert (app_reach app_example) as Hr.
  { apply (app_reach_step initial_app); [apply app_reach_initial|].
    apply step_input. simpl. apply not_elem_of_nil. }
  split; [exact Hr|]. exact (proj1 (active_tasks_counts_workers app_example Hr)).
Defined.

(** With a task running, the button [cancel] does not exit. *)
Lemma quit_confirmation_witness :
  app_reach app_example ∧
  (action_quit app_example (str "cancel") = true ↔
   workers app_example = [] ∨ str "cancel" = str "quit").
Proof.
  assert (app_reach app_example) as Hr.
  { apply (app_reach_step initial_app); [apply app_reach_initial|].
    apply step_input. simpl. apply not_elem_of_nil. }
  split; [exact Hr|]. exact (quit_confirmation app_example (str "cancel") Hr).
Defined.
